(** * useRelationMultiple: the relation-editing state layer

    A shallow embedding of the composable [useRelationMultiple]
    (TypeScript, Vue reactivity, lodash) and proofs of the properties its
    specification states.

    Conventions of the embedding.
    - JavaScript values are the inductive [any]; plain objects are finite
      maps from property names to values (stdpp's [gmap]), so the order of
      the keys of an object is not represented.  Arrays occur in the source
      only as the arrays of the composable itself (the create, update and
      delete lists, the fetched items, argument lists); they are Rocq
      lists.  Array-valued properties inside an item are not represented.
    - Numbers are the integers and [NaN], with exact arithmetic;
      fractions and the infinities are not represented.  The arithmetic of
      the language is exact on the safe integers only (below [2^53] in
      absolute value), so what is stated of a sum is stated for these.
      [StringToNumber] reads decimal integer numerals only; what is stated
      of a converted string is stated for strings of decimal digits.
    - [Array.prototype.sort] is a stable insertion sort.  For a comparator
      that is consistent this is the order the language prescribes; for
      one that returns [NaN] the language leaves the order to the
      implementation, and nothing is stated of it but that the items are
      kept.
    - Objects are immutable values, so [cloneDeep] is the identity and
      [===] on two objects, which compares references in JavaScript, is
      [false]: wherever the source compares two values that can be
      objects, one comes from the changes and the other from a server
      response, and these never share a reference.
    - A property read [o[k]] returns the own property; names inherited from
      [Object.prototype] (such as [constructor]) are assumed not to be used
      as field names.
    - A [computed] is a function of the state, evaluated at each read; the
      caching of Vue and the watchers that call [updateFetchedItems],
      [clear] and [loadSelectedDisplay] are not represented.  Inside one
      call of [create] with several items the source can read a cached
      [totalSortMax] where the embedding computes it again after each
      push; what is stated of the sort value given to a created item is
      stated for a call with one item.
    - An exception is the [Throw] outcome of the [result] monad; a rejected
      promise of an [async] function is the [Throw] outcome as well.  The
      awaits of one call are run in sequence without interleaving other
      calls.
    - The HTTP client, [getEndpoint], [unexpectedError] and lodash are
      imported by the source; they are modelled by what the source relies
      on. *)

From stdpp Require Import gmap strings list fin_maps pretty sorting.
From Stdlib Require Import ZArith Lia Ascii.

#[local] Set Warnings "-register-all".
#[local] Open Scope Z_scope.

(** ** JavaScript values *)

Inductive number :=
| NaN
| Int (n : Z).

Inductive any :=
| VUndefined
| VNull
| VBool (b : bool)
| VNumber (n : number)
| VString (s : string)
| VObject (o : gmap string any).

(** [Record<string, any>], [Item] and [DisplayItem] are all plain objects. *)
Abbreviation Item := (gmap string any).

Inductive JsError :=
| TypeError
| Error (message : string)
| RequestFailed (reason : string).

Inductive result (A : Type) :=
| Ok (a : A)
| Throw (e : JsError).
Arguments Ok {A} a.
Arguments Throw {A} e.

#[global] Instance result_ret : MRet result := fun A a => Ok a.
#[global] Instance result_bind : MBind result := fun A B k r =>
  match r with
  | Ok a => k a
  | Throw e => Throw e
  end.

Fixpoint filterM {A} (p : A → result bool) (l : list A) : result (list A) :=
  match l with
  | [] => Ok []
  | x :: l' =>
      b ← p x; ys ← filterM p l'; Ok (if b : bool then x :: ys else ys)
  end.

(** [Array.prototype.find]: the first element the callback accepts; the
    callback is not run on later elements. *)
Fixpoint findM {A} (p : A → result bool) (l : list A) : result (option A) :=
  match l with
  | [] => Ok None
  | x :: l' => b ← p x; if b : bool then Ok (Some x) else findM p l'
  end.

(** [Array.prototype.findIndex], [None] standing for [-1]. *)
Fixpoint findIndexM {A} (p : A → result bool) (l : list A) : result (option nat) :=
  match l with
  | [] => Ok None
  | x :: l' =>
      b ← p x;
      if b : bool then Ok (Some 0%nat)
      else i ← findIndexM p l'; Ok (S <$> (i : option nat))
  end.

Fixpoint findIndex {A} (p : A → bool) (l : list A) : option nat :=
  match l with
  | [] => None
  | x :: l' => if p x then Some 0%nat else S <$> findIndex p l'
  end.

(** ** Operators and conversions of the language *)

Definition num_eqb (a b : number) : bool :=
  match a, b with
  | Int x, Int y => x =? y
  | _, _ => false
  end.

(** [a === b] *)
Definition strict_eq (a b : any) : bool :=
  match a, b with
  | VUndefined, VUndefined => true
  | VNull, VNull => true
  | VBool x, VBool y => bool_decide (x = y)
  | VNumber x, VNumber y => num_eqb x y
  | VString x, VString y => bool_decide (x = y)
  | _, _ => false
  end.

Definition is_undefined (v : any) : bool := strict_eq v VUndefined.
Definition is_null (v : any) : bool := strict_eq v VNull.

(** lodash [isNil] *)
Definition isNil (v : any) : bool := is_undefined v || is_null v.

(** [typeof v === 'object'] *)
Definition typeof_object (v : any) : bool :=
  match v with
  | VNull | VObject _ => true
  | _ => false
  end.

Definition truthy (v : any) : bool :=
  match v with
  | VUndefined | VNull => false
  | VBool b => b
  | VNumber NaN => false
  | VNumber (Int n) => negb (n =? 0)
  | VString s => negb (bool_decide (s = ""))
  | VObject _ => true
  end.

(** [a || b] *)
Definition js_or (a b : any) : any := if truthy a then a else b.

Definition is_space (c : Ascii.ascii) : bool :=
  let n := Ascii.nat_of_ascii c in
  bool_decide (n = 32%nat) || (Nat.leb 9 n && Nat.leb n 13).

Definition digit_of (c : Ascii.ascii) : option Z :=
  let n := Ascii.nat_of_ascii c in
  if Nat.leb 48 n && Nat.leb n 57 then Some (Z.of_nat (n - 48)) else None.

Fixpoint digits_value (acc : Z) (s : list Ascii.ascii) : option Z :=
  match s with
  | [] => Some acc
  | c :: s' =>
      match digit_of c with
      | Some d => digits_value (10 * acc + d) s'
      | None => None
      end
  end.

Fixpoint drop_spaces (s : list Ascii.ascii) : list Ascii.ascii :=
  match s with
  | c :: s' => if is_space c then drop_spaces s' else s
  | [] => []
  end.

Definition unsigned_value (s : list Ascii.ascii) : number :=
  match s with
  | [] => NaN
  | _ => match digits_value 0 s with Some n => Int n | None => NaN end
  end.

(** [StringToNumber] on the decimal integer numerals: surrounding white
    space is dropped, the empty string is [0], a sign is allowed. *)
Definition StringToNumber (s : string) : number :=
  let body := reverse (drop_spaces (reverse (drop_spaces (String.list_ascii_of_string s)))) in
  match body with
  | [] => Int 0
  | "+"%char :: ds => unsigned_value ds
  | "-"%char :: ds =>
      match unsigned_value ds with Int n => Int (- n) | NaN => NaN end
  | _ => unsigned_value body
  end.

Definition ToNumber (v : any) : number :=
  match v with
  | VUndefined => NaN
  | VNull => Int 0
  | VBool b => Int (if b then 1 else 0)
  | VNumber n => n
  | VString s => StringToNumber s
  | VObject _ => NaN
  end.

Definition num_to_string (n : number) : string :=
  match n with
  | NaN => "NaN"
  | Int z => pretty z
  end.

(** [ToString], also the conversion of a value used as a property key. *)
Definition ToString (v : any) : string :=
  match v with
  | VUndefined => "undefined"
  | VNull => "null"
  | VBool b => if b then "true" else "false"
  | VNumber n => num_to_string n
  | VString s => s
  | VObject _ => "[object Object]"
  end.

Definition num_add (a b : number) : number :=
  match a, b with
  | Int x, Int y => Int (x + y)
  | _, _ => NaN
  end.

Definition num_sub (a b : number) : number :=
  match a, b with
  | Int x, Int y => Int (x - y)
  | _, _ => NaN
  end.

Definition num_mul (a b : number) : number :=
  match a, b with
  | Int x, Int y => Int (x * y)
  | _, _ => NaN
  end.

(** [a > b] on numbers; a comparison with [NaN] is [false]. *)
Definition num_gtb (a b : number) : bool :=
  match a, b with
  | Int x, Int y => y <? x
  | _, _ => false
  end.

Definition is_stringish (v : any) : bool :=
  match v with
  | VString _ | VObject _ => true
  | _ => false
  end.

(** [a + b]: concatenation as soon as one operand is a string or an
    object (which converts to a string), addition of numbers otherwise. *)
Definition js_add (a b : any) : any :=
  if is_stringish a || is_stringish b
  then VString (ToString a +:+ ToString b)
  else VNumber (num_add (ToNumber a) (ToNumber b)).

(** [Math.max(a, b)] *)
Definition Math_max (a b : any) : any :=
  match ToNumber a, ToNumber b with
  | Int x, Int y => VNumber (Int (Z.max x y))
  | _, _ => VNumber NaN
  end.

(** ** Objects *)

(** [o[k]] on an object *)
Definition get (o : Item) (k : string) : any := default VUndefined (o !! k).

(** [v[k]] on any value: reading a property of [undefined] or [null]
    throws; the primitives have no own property of interest. *)
Definition prop (v : any) (k : string) : result any :=
  match v with
  | VUndefined | VNull => Throw TypeError
  | VObject o => Ok (get o k)
  | _ => Ok VUndefined
  end.

(** The own enumerable properties copied by [{...v}]. *)
Definition spread (v : any) : Item :=
  match v with
  | VObject o => o
  | VString s =>
      list_to_map (imap (fun i c => (pretty i, VString (String c ""))) (String.list_ascii_of_string s))
  | _ => ∅
  end.

(** lodash [cloneDeep]: a structurally equal copy. *)
Definition cloneDeep {A} (x : A) : A := x.

(** lodash [merge], one property: [mergeValue srcValue objValue] is the
    value the destination holds at a key after a source that has
    [srcValue] at this key was merged in, [objValue] being what the
    destination held before ([None]: the key was absent).  A plain-object
    source value is merged recursively into the destination's object, or
    into a fresh object when the destination holds none; [undefined] never
    overwrites an existing key; every other value is assigned. *)
Fixpoint mergeValue (srcValue : any) (objValue : option any) : any :=
  match srcValue with
  | VObject src =>
      let dst := match objValue with Some (VObject o) => o | _ => ∅ end in
      VObject (map_imap (fun k sv => Some (mergeValue sv (dst !! k))) src ∪ dst)
  | VUndefined => default VUndefined objValue
  | _ => srcValue
  end.

(** [baseMerge(object, source)] *)
Definition mergeObject (object source : Item) : Item :=
  map_imap (fun k sv => Some (mergeValue sv (object !! k))) source ∪ object.

(** [merge(object, ...sources)]: the sources are merged in from left to
    right; a falsy source is skipped. *)
Definition merge (object : Item) (sources : list any) : Item :=
  fold_left
    (fun object source =>
       if truthy source then mergeObject object (spread source) else object)
    sources object.

(** The number of values nested in a value, the measure for induction. *)
Fixpoint vsize (v : any) : nat :=
  match v with
  | VObject o => S (map_fold (fun _ v' n => (vsize v' + n)%nat) 0%nat o)
  | _ => 1%nat
  end.

(** ** Arrays *)

(** [ToIntegerOrInfinity] *)
Definition ToIntegerOrInfinity (n : number) : Z :=
  match n with
  | NaN => 0
  | Int z => z
  end.

(** The index an argument of [slice] or [splice] denotes in an array of
    length [len]: a negative one counts from the end. *)
Definition relative_index (len i : Z) : Z :=
  if i <? 0 then Z.max (len + i) 0 else Z.min i len.

(** [l.slice(start, end)] *)
Definition slice {A} (start end_ : number) (l : list A) : list A :=
  let len := Z.of_nat (length l) in
  let k := relative_index len (ToIntegerOrInfinity start) in
  let final := relative_index len (ToIntegerOrInfinity end_) in
  take (Z.to_nat (final - k)) (drop (Z.to_nat k) l).

(** [l.splice(start, 1)]: the list after the call. *)
Definition splice1 {A} (start : any) (l : list A) : list A :=
  let len := Z.of_nat (length l) in
  let k := Z.to_nat (relative_index len (ToIntegerOrInfinity (ToNumber start))) in
  take k l ++ drop (S k) l.

(** Array indices are the integers from [0] to [2^32 - 2]. *)
Definition max_index : Z := 4294967295.

Definition canonical_index (s : string) : option nat :=
  match StringToNumber s with
  | Int z =>
      if bool_decide (0 <= z < max_index ∧ pretty z = s) then Some (Z.to_nat z)
      else None
  | NaN => None
  end.

(** The array index a property key denotes, if it denotes one. *)
Definition array_index (key : any) : option nat :=
  match key with
  | VNumber (Int z) =>
      if bool_decide (0 <= z < max_index) then Some (Z.to_nat z) else None
  | VString s => canonical_index s
  | _ => None
  end.

(** [l[key] = x]: an index inside the array replaces the element, an
    index past the end extends the array, the elements in between reading
    as [undefined] once the array has been cloned; any other key sets a
    property that is no element and is lost when the array is cloned. *)
Definition array_set (key : any) (x : any) (l : list any) : list any :=
  match array_index key with
  | Some i =>
      if Nat.ltb i (length l) then <[i:=x]> l
      else l ++ replicate (i - length l) VUndefined ++ [x]
  | None => l
  end.

(** lodash [clamp(number, lower, upper)] *)
Definition clamp (n : number) (lower upper : Z) : number :=
  match n with
  | NaN => NaN
  | Int z =>
      let z := if z <=? upper then z else upper in
      Int (if lower <=? z then z else lower)
  end.

(** [l.sort(compare)]: elements are moved past one another only when the
    comparator returns a positive number, and equal elements keep their
    order.  (For a comparator that is not consistent the language leaves
    the order to the implementation.) *)
Fixpoint sort_insert {A} (compare : A → A → number) (x : A) (l : list A) : list A :=
  match l with
  | [] => [x]
  | y :: l' =>
      if num_gtb (compare x y) (Int 0) then y :: sort_insert compare x l'
      else x :: l
  end.

Definition sort {A} (compare : A → A → number) (l : list A) : list A :=
  foldr (sort_insert compare) [] l.

(** ** The relation metadata *)

(** Modelled from the spec: the type declarations [RelationO2M],
    [RelationM2M] and [RelationM2A] are imported from the composables
    [use-relation-o2m], [use-relation-m2m] and [use-relation-m2a]; they
    describe the three relation types the spec names (one-to-many,
    many-to-many, many-to-many-polymorphic).  The records hold what this
    file reads from them: for a field its name ([x.field]), for a
    collection its name ([x.collection]). *)
Record RelationO2M := {
  o2m_relatedCollection : string;
  o2m_relatedPrimaryKeyField : string;
  o2m_reverseJunctionField : string;
  o2m_sortField : option string;
}.

Record RelationM2M := {
  m2m_relatedCollection : string;
  m2m_relatedPrimaryKeyField : string;
  m2m_junctionCollection : string;
  m2m_junctionPrimaryKeyField : string;
  m2m_junctionField : string;
  m2m_reverseJunctionField : string;
  m2m_sortField : option string;
}.

Record RelationM2A := {
  m2a_allowedCollections : list string;
  m2a_relationPrimaryKeyFields : gmap string string;
  m2a_junctionCollection : string;
  m2a_junctionPrimaryKeyField : string;
  m2a_collectionField : string;
  m2a_junctionField : string;
  m2a_reverseJunctionField : string;
  m2a_sortField : option string;
}.

Inductive Relation :=
| O2M (info : RelationO2M)
| M2M (info : RelationM2M)
| M2A (info : RelationM2A).

Definition is_o2m (relation : option Relation) : bool :=
  match relation with
  | Some (O2M _) => true
  | _ => false
  end.

(** [relation.value?.sortField] *)
Definition sortField (relation : option Relation) : option string :=
  match relation with
  | Some (O2M info) => o2m_sortField info
  | Some (M2M info) => m2m_sortField info
  | Some (M2A info) => m2a_sortField info
  | None => None
  end.

(** The sort field when [!sortField] is false: the empty name is falsy. *)
Definition truthy_field (field : option string) : option string :=
  match field with
  | Some f => if truthy (VString f) then Some f else None
  | None => None
  end.

Definition reverseJunctionField (info : Relation) : string :=
  match info with
  | O2M info => o2m_reverseJunctionField info
  | M2M info => m2m_reverseJunctionField info
  | M2A info => m2a_reverseJunctionField info
  end.

(** [relation.type === 'o2m' ? relatedPrimaryKeyField.field
                            : junctionPrimaryKeyField.field] *)
Definition targetPKField (info : Relation) : string :=
  match info with
  | O2M info => o2m_relatedPrimaryKeyField info
  | M2M info => m2m_junctionPrimaryKeyField info
  | M2A info => m2a_junctionPrimaryKeyField info
  end.

(** [relationPrimaryKeyFields[collection].field]: the record is indexed by
    the collection converted to a property key, and reading [field] of a
    missing entry throws. *)
Definition relationPrimaryKeyField (info : RelationM2A) (collection : any) : result string :=
  match m2a_relationPrimaryKeyFields info !! ToString collection with
  | Some field => Ok field
  | None => Throw TypeError
  end.

(** ** The state of the composable *)

Inductive Filter :=
| FieldEq (field : string) (v : any)
| FieldIn (field : string) (vs : list any)
| And (filters : list Filter)
| Other (f : Item).

Record RelationQueryMultiple := {
  page : Z;
  limit : Z;
  fields : list string;
  search : option string;
  query_filter : option Filter;
}.

Record ChangesItem := {
  c_create : list any;
  c_update : list any;
  c_delete : list any;
}.

(** What the [value] ref holds: nothing, [null], the array of persisted
    keys, or the changes object. *)
Inductive RawValue :=
| RawUndefined
| RawNull
| RawArray (l : list any)
| RawChanges (c : ChangesItem).

Record State := {
  value : RawValue;
  previewQuery : RelationQueryMultiple;
  relation : option Relation;
  itemId : any;
  loading : bool;
  fetchedItems : list Item;
  existingItemCount : number;
  existingSortMax : any;
  fetchedSelectItems : list Item;
  (** the errors handed to [unexpectedError], latest last *)
  reported : list JsError;
}.

Definition no_changes : ChangesItem :=
  {| c_create := []; c_update := []; c_delete := [] |}.

(** The getter of the computed [_value]. *)
Definition _value (st : State) : ChangesItem :=
  match value st with
  | RawChanges c => c
  | _ => no_changes
  end.

(** ** The computed values *)

Section computed.
Context (st : State).

(** [getSortMax(...values)] *)
Definition getSortMax (values : list any) : any :=
  fold_left
    (fun max v =>
       if is_null max then v
       else if is_null v then max
       else Math_max max v)
    values VNull.

Definition isItemSelected (item : Item) : bool :=
  match relation st with
  | Some info => negb (is_undefined (get item (reverseJunctionField info)))
  | None => false
  end.

(** [{ ...item, $index: index, $type: type }] *)
Definition tagged (type : string) (index : nat) (item : any) : Item :=
  <["$type" := VString type]> (<["$index" := VNumber (Int (Z.of_nat index))]> (spread item)).

Definition selected : list Item :=
  match relation st with
  | None => []
  | Some _ =>
      if is_o2m (relation st)
      then base.filter (fun item => isItemSelected item = true)
             (imap (tagged "updated") (c_update (_value st)))
      else base.filter (fun item => isItemSelected item = true)
             (imap (tagged "created") (c_create (_value st)))
  end.

Definition totalItemCount : number :=
  if is_o2m (relation st)
  then num_add
         (num_add (existingItemCount st) (Int (Z.of_nat (length (c_create (_value st))))))
         (Int (Z.of_nat (length selected)))
  else num_add (existingItemCount st) (Int (Z.of_nat (length (c_create (_value st))))).

Definition totalSortMax : result any :=
  match truthy_field (sortField (relation st)) with
  | None => Ok VNull
  | Some sortField =>
      createdSorts ← mapM (fun v => prop v sortField) (c_create (_value st));
      if is_o2m (relation st)
      then Ok (getSortMax
                 (existingSortMax st :: createdSorts
                    ++ map (fun v => get v sortField) selected))
      else Ok (getSortMax (existingSortMax st :: createdSorts))
  end.

Definition createdItems : result (list any) :=
  match relation st with
  | None => Ok []
  | Some (O2M _) => Ok (c_create (_value st))
  | Some info =>
      filterM
        (fun item => v ← prop item (reverseJunctionField info); Ok (is_undefined v))
        (c_create (_value st))
  end.

(** [getPage(offset, items)] *)
Definition getPage {A} (offset : number) (items : list A) : list A :=
  let q := previewQuery st in
  if limit q =? -1 then items
  else
    let n := Z.of_nat (length items) in
    let start := clamp (num_sub (Int ((page q - 1) * limit q)) offset) 0 n in
    let end_ := clamp (num_sub (Int (page q * limit q)) offset) 0 n in
    slice start end_ items.

(** The computed [selectedOnPage] of [useSelected]. *)
Definition selectedOnPage : list Item := getPage (existingItemCount st) selected.

Definition cleanItem (item : Item) : Item :=
  base.filter (fun kv => String.prefix "$" kv.1 = false) item.

Definition localDelete (item : Item) : bool :=
  negb (is_undefined (get item "$type"))
  && (negb (strict_eq (get item "$type") (VString "updated")) || isItemSelected item).

(** The callback of [_value.value.update.findIndex] in [displayItems]. *)
Definition is_edit_of (targetPKField : string) (item : Item) (edit : any) : result bool :=
  if typeof_object edit
  then v ← prop edit targetPKField; Ok (strict_eq v (get item targetPKField))
  else Ok false.

(** [{ $type: 'updated', $index: editsIndex, $edits: editsIndex }] *)
Definition updated_tags (editsIndex : nat) : Item :=
  {[ "$type" := VString "updated";
     "$index" := VNumber (Int (Z.of_nat editsIndex));
     "$edits" := VNumber (Int (Z.of_nat editsIndex)) ]}.

(** [{ $type: 'deleted', $index: deleteIndex }] *)
Definition deleted_tags (deleteIndex : nat) : Item :=
  {[ "$type" := VString "deleted";
     "$index" := VNumber (Int (Z.of_nat deleteIndex)) ]}.

(** The callback of [fetchedItems.value.map] in [displayItems]. *)
Definition displayFetched (targetPKField : string) (item : Item) : result Item :=
  editsIndex ← findIndexM (is_edit_of targetPKField item) (c_update (_value st));
  let deleteIndex :=
    findIndex (fun id => strict_eq id (get item targetPKField)) (c_delete (_value st)) in
  let updatedItem : Item :=
    match editsIndex with
    | Some i =>
        merge ∅
          [ VObject (cloneDeep item);
            VObject (updated_tags i);
            default VUndefined (c_update (_value st) !! i) ]
    | None => merge ∅ [ VObject (cloneDeep item) ]
    end in
  match deleteIndex with
  | Some d => Ok (merge updatedItem [ VObject (deleted_tags d) ])
  | None => Ok updatedItem
  end.

(** The callback of [fetchedSelectItems.value.find] in [displayItems]. *)
Definition is_display_of (info : Relation) (item edit : Item) : result bool :=
  match info with
  | O2M _ =>
      Ok (strict_eq (get edit (targetPKField info)) (get item (targetPKField info)))
  | M2M r =>
      a ← prop (get edit (m2m_junctionField r)) (m2m_relatedPrimaryKeyField r);
      b ← prop (get item (m2m_junctionField r)) (m2m_relatedPrimaryKeyField r);
      Ok (strict_eq a b)
  | M2A r =>
      let itemCollection := get item (m2a_collectionField r) in
      let editCollection := get edit (m2a_collectionField r) in
      itemPkField ← relationPrimaryKeyField r itemCollection;
      editPkField ← relationPrimaryKeyField r editCollection;
      if strict_eq itemCollection editCollection
      then
        a ← prop (get edit (m2a_junctionField r)) editPkField;
        b ← prop (get item (m2a_junctionField r)) itemPkField;
        Ok (strict_eq a b)
      else Ok false
  end.

(** The callback of [selected.value.map] in [displayItems]. *)
Definition displaySelected (info : Relation) (item : Item) : result Item :=
  edits ← findM (is_display_of info item) (fetchedSelectItems st);
  match edits with
  | None => Ok item
  | Some edits => Ok (merge ∅ [VObject item; VObject edits])
  end.

(** The array [items] of [displayItems] once the selected and the created
    items have been pushed, before the final sort. *)
Definition mergedItems (info : Relation) : result (list Item) :=
  items ← mapM (displayFetched (targetPKField info)) (fetchedItems st);
  selectedOnPage ← mapM (displaySelected info) selected;
  created ← createdItems;
  let newItems :=
    getPage (num_add (existingItemCount st) (Int (Z.of_nat (length selected)))) created in
  Ok (items ++ selectedOnPage ++ imap (tagged "created") newItems).

(** The comparator [(a, b) => a[sortField] - b[sortField]]. *)
Definition bySortField (sortField : string) (a b : Item) : number :=
  num_sub (ToNumber (get a sortField)) (ToNumber (get b sortField)).

Definition displayItems : result (list Item) :=
  match relation st with
  | None => Ok []
  | Some info =>
      items ← mergedItems info;
      match truthy_field (sortField (relation st)) with
      | None => Ok items
      | Some sortField =>
          if (0 <? limit (previewQuery st))
             && num_gtb totalItemCount (Int (limit (previewQuery st)))
          then Ok items
          else Ok (sort (bySortField sortField) items)
      end
  end.

End computed.

(** ** Statements that change the state *)

(** The outcome of running a statement: it completes with a result, or an
    exception leaves it; either way the state reached is kept. *)
Inductive outcome (A : Type) :=
| Done (a : A) (st : State)
| Raised (e : JsError) (st : State).
Arguments Done {A} a st.
Arguments Raised {A} e st.

Definition action (A : Type) : Type := State → outcome A.

#[global] Instance action_ret : MRet action := fun A a st => Done a st.
#[global] Instance action_bind : MBind action := fun A B k m st =>
  match m st with
  | Done a st' => k a st'
  | Raised e st' => Raised e st'
  end.

(** Reading a computed value inside a statement. *)
Definition read {A} (f : State → result A) : action A := fun st =>
  match f st with
  | Ok a => Done a st
  | Throw e => Raised e st
  end.

Definition modify (f : State → State) : action () := fun st => Done () (f st).

(** [for (const x of l) body(x)] *)
Fixpoint for_of {A} (l : list A) (body : A → action ()) : action () :=
  match l with
  | [] => mret ()
  | x :: l' => _ ← body x; for_of l' body
  end.

(** [try { body } catch (err) { handler(err) } finally { final }] *)
Definition try_catch_finally (body : action ()) (handler : JsError → action ())
    (final : action ()) : action () := fun st =>
  match body st with
  | Done _ st' => final st'
  | Raised e st' =>
      match handler e st' with
      | Done _ st'' => final st''
      | Raised e' st'' =>
          match final st'' with
          | Done _ st''' => Raised e' st'''
          | Raised e'' st''' => Raised e'' st'''
          end
      end
  end.

Definition final_state {A} (o : outcome A) : State :=
  match o with
  | Done _ st => st
  | Raised _ st => st
  end.

Definition set_value (v : RawValue) (st : State) : State :=
  {| value := v; previewQuery := previewQuery st; relation := relation st;
     itemId := itemId st; loading := loading st; fetchedItems := fetchedItems st;
     existingItemCount := existingItemCount st; existingSortMax := existingSortMax st;
     fetchedSelectItems := fetchedSelectItems st; reported := reported st |}.

Definition set_loading (b : bool) (st : State) : State :=
  {| value := value st; previewQuery := previewQuery st; relation := relation st;
     itemId := itemId st; loading := b; fetchedItems := fetchedItems st;
     existingItemCount := existingItemCount st; existingSortMax := existingSortMax st;
     fetchedSelectItems := fetchedSelectItems st; reported := reported st |}.

Definition set_fetchedItems (l : list Item) (st : State) : State :=
  {| value := value st; previewQuery := previewQuery st; relation := relation st;
     itemId := itemId st; loading := loading st; fetchedItems := l;
     existingItemCount := existingItemCount st; existingSortMax := existingSortMax st;
     fetchedSelectItems := fetchedSelectItems st; reported := reported st |}.

Definition set_existingItemCount (n : number) (st : State) : State :=
  {| value := value st; previewQuery := previewQuery st; relation := relation st;
     itemId := itemId st; loading := loading st; fetchedItems := fetchedItems st;
     existingItemCount := n; existingSortMax := existingSortMax st;
     fetchedSelectItems := fetchedSelectItems st; reported := reported st |}.

Definition set_existingSortMax (v : any) (st : State) : State :=
  {| value := value st; previewQuery := previewQuery st; relation := relation st;
     itemId := itemId st; loading := loading st; fetchedItems := fetchedItems st;
     existingItemCount := existingItemCount st; existingSortMax := v;
     fetchedSelectItems := fetchedSelectItems st; reported := reported st |}.

Definition set_fetchedSelectItems (l : list Item) (st : State) : State :=
  {| value := value st; previewQuery := previewQuery st; relation := relation st;
     itemId := itemId st; loading := loading st; fetchedItems := fetchedItems st;
     existingItemCount := existingItemCount st; existingSortMax := existingSortMax st;
     fetchedSelectItems := l; reported := reported st |}.

(** [unexpectedError(err)]: the handler is imported; what is kept of it is
    that it was called with the error. *)
Definition unexpectedError (err : JsError) : action () :=
  modify (fun st =>
    {| value := value st; previewQuery := previewQuery st; relation := relation st;
       itemId := itemId st; loading := loading st; fetchedItems := fetchedItems st;
       existingItemCount := existingItemCount st; existingSortMax := existingSortMax st;
       fetchedSelectItems := fetchedSelectItems st; reported := reported st ++ [err] |}).

(** ** The actions on the changes *)

(** A change made in place to the object behind [target.value].  When the
    [value] ref holds no changes object, the object changed is the one the
    getter of [_value] returned, which the later reads of [target.value]
    in the same call see, and which [updateValue] stores in the ref. *)
Definition change (f : ChangesItem → ChangesItem) : action () :=
  modify (fun st => set_value (RawChanges (f (_value st))) st).

Definition set_create (f : list any → list any) (c : ChangesItem) : ChangesItem :=
  {| c_create := f (c_create c); c_update := c_update c; c_delete := c_delete c |}.

Definition set_update (f : list any → list any) (c : ChangesItem) : ChangesItem :=
  {| c_create := c_create c; c_update := f (c_update c); c_delete := c_delete c |}.

Definition set_delete (f : list any → list any) (c : ChangesItem) : ChangesItem :=
  {| c_create := c_create c; c_update := c_update c; c_delete := f (c_delete c) |}.

(** [l.push(x)] *)
Definition push {A} (x : A) (l : list A) : list A := l ++ [x].

Definition reset : action () :=
  modify (fun st =>
    set_fetchedItems []
      (set_existingItemCount (Int 0)
         (set_value
            (if strict_eq (itemId st) (VString "+") then RawUndefined else RawArray [])
            st))).

Definition is_empty {A} (l : list A) : bool :=
  match l with
  | [] => true
  | _ => false
  end.

Definition updateValue : action () := fun st =>
  let st := set_value (RawChanges (cloneDeep (_value st))) st in
  if is_empty (c_create (_value st)) && is_empty (c_update (_value st))
     && is_empty (c_delete (_value st))
  then reset st
  else Done () st.

(** The item [create] stores for an argument: without a sort value it is
    given the next one. *)
Definition create_entry (item : Item) : action Item := fun st =>
  match truthy_field (sortField (relation st)) with
  | Some sortField =>
      if isNil (get item sortField)
      then
        match totalSortMax st with
        | Ok max =>
            Done
              (cleanItem
                 (<[sortField := js_add (js_or max (VNumber (Int 0))) (VNumber (Int 1))]> item))
              st
        | Throw e => Raised e st
        end
      else Done (cleanItem item) st
  | None => Done (cleanItem item) st
  end.

Definition create (items : list Item) : action () :=
  _ ← for_of items (fun item =>
         entry ← create_entry item;
         change (set_create (push (VObject entry))));
  updateValue.

Definition update_one (item : Item) : action () :=
  if is_undefined (get item "$type") || is_undefined (get item "$index")
  then change (set_update (push (VObject item)))
  else if strict_eq (get item "$type") (VString "created")
  then change (set_create (array_set (get item "$index") (VObject (cleanItem item))))
  else if strict_eq (get item "$type") (VString "updated")
  then change (set_update (array_set (get item "$index") (VObject (cleanItem item))))
  else if strict_eq (get item "$type") (VString "deleted")
  then
    if negb (is_undefined (get item "$edits"))
    then change (set_update (array_set (get item "$edits") (VObject (cleanItem item))))
    else change (set_update (push (VObject (cleanItem item))))
  else mret ().

Definition update (items : list Item) : action () := fun st =>
  match relation st with
  | None => Done () st
  | Some _ => (_ ← for_of items update_one; updateValue) st
  end.

Definition remove_one (pkField : string) (item : Item) : action () := fun st =>
  if is_undefined (get item "$type") || is_undefined (get item "$index")
  then change (set_delete (push (get item pkField))) st
  else if strict_eq (get item "$type") (VString "created")
  then change (set_create (splice1 (get item "$index"))) st
  else if strict_eq (get item "$type") (VString "updated")
  then
    if isItemSelected st item
    then change (set_update (splice1 (get item "$index"))) st
    else change (set_delete (push (get item pkField))) st
  else if strict_eq (get item "$type") (VString "deleted")
  then change (set_delete (splice1 (get item "$index"))) st
  else Done () st.

Definition remove (items : list Item) : action () := fun st =>
  match relation st with
  | None => Done () st
  | Some info =>
      (_ ← for_of items (remove_one (targetPKField info)); updateValue) st
  end.

(** [!collection] *)
Definition no_collection (collection : option string) : bool :=
  match collection with
  | None => true
  | Some c => negb (truthy (VString c))
  end.

(** The callback of [items.map] in [select]. *)
Definition select_entry (info : Relation) (itemId : any) (collection : option string)
    (item : any) : result Item :=
  match info with
  | O2M r =>
      Ok (<[o2m_relatedPrimaryKeyField r := item]>
            (<[o2m_reverseJunctionField r := itemId]> ∅))
  | M2M r =>
      Ok (<[m2m_junctionField r := VObject (<[m2m_relatedPrimaryKeyField r := item]> ∅)]>
            (<[m2m_reverseJunctionField r := itemId]> ∅))
  | M2A r =>
      if no_collection collection
      then Throw (Error "You need to provide a collection on an m2a")
      else
        let collection := default "" collection in
        pkField ← relationPrimaryKeyField r (VString collection);
        Ok (<[m2a_junctionField r := VObject (<[pkField := item]> ∅)]>
              (<[m2a_collectionField r := VString collection]>
                 (<[m2a_reverseJunctionField r := itemId]> ∅)))
  end.

Definition select (items : list any) (collection : option string) : action () := fun st =>
  match relation st with
  | None => Done () st
  | Some info =>
      (selected ← read (fun st => mapM (select_entry info (itemId st) collection) items);
       if is_o2m (relation st) then update selected else create selected) st
  end.

Definition clear : action () := fun st =>
  match relation st with
  | None => Done () st
  | Some _ =>
      (_ ← change (set_create (fun _ => []));
       _ ← change (set_update (fun _ => []));
       _ ← change (set_delete (fun _ => []));
       reset) st
  end.

(** ** The calls to the server *)

Inductive Aggregate :=
| Count (field : string)
| Max (field : string).

(** The [params] of a request; an absent parameter is [None]. *)
Record Params := {
  p_search : option string;
  p_fields : option (list string);
  p_filter : option Filter;
  p_aggregate : option Aggregate;
  p_page : option Z;
  p_limit : option Z;
}.

(** [api.get(getEndpoint(collection), { params })], identified by the
    collection whose endpoint is asked. *)
Record Request := {
  r_collection : string;
  r_params : Params;
}.

(** The imported HTTP client: what awaiting [api.get] yields, either
    [response.data.data] or the rejection of the request. *)
Definition Api : Type := Request → result (list Item).

(** [new Set(l)], [s.add(x)] and [Array.from(s)] on the list of the
    elements of the set in insertion order. *)
Definition set_add (x : string) (s : list string) : list string :=
  if bool_decide (x ∈ s) then s else s ++ [x].

Definition new_Set (l : list string) : list string :=
  fold_left (fun s x => set_add x s) l [].

(** [{ _and: [{ [reverseJunctionField]: itemId }] }] with the filter of the
    query pushed when there is one. *)
Definition item_filter (st : State) (reverseJunctionField : string) : Filter :=
  And (FieldEq reverseJunctionField (itemId st)
         :: match query_filter (previewQuery st) with
            | Some f => [f]
            | None => []
            end).

(** [l[0].key[field]] on a response *)
Definition first_aggregate (key field : string) (data : list Item) : result any :=
  row ← prop (default VUndefined (VObject <$> head data)) key;
  prop row field.

Section network.
Context (api : Api).

(** [await api.get(...)] *)
Definition get_request (collection : string) (params : State → Params)
  : action (list Item) :=
  read (fun st => api {| r_collection := collection; r_params := params st |}).

Definition updateItemCount (targetCollection targetPKField reverseJunctionField : string)
  : action () :=
  data ← get_request targetCollection (fun st =>
    {| p_search := search (previewQuery st);
       p_fields := None;
       p_filter := Some (item_filter st reverseJunctionField);
       p_aggregate := Some (Count targetPKField);
       p_page := None;
       p_limit := None |});
  count ← read (fun _ => first_aggregate "count" targetPKField data);
  modify (set_existingItemCount (ToNumber count)).

Definition updateSortMax (targetCollection sortField reverseJunctionField : string)
  : action () :=
  data ← get_request targetCollection (fun st =>
    {| p_search := None;
       p_fields := None;
       p_filter := Some (FieldEq reverseJunctionField (itemId st));
       p_aggregate := Some (Max sortField);
       p_page := None;
       p_limit := None |});
  max ← read (fun _ => first_aggregate "max" sortField data);
  modify (set_existingSortMax max).

(** The [switch] of [updateFetchedItems]: the target collection, its
    primary key, the reverse junction field, and the fields to fetch. *)
Definition fetch_target (info : Relation) (fields : list string)
  : result (string * string * string * list string) :=
  match info with
  | M2A r =>
      let fields := set_add (m2a_junctionPrimaryKeyField r) fields in
      let fields := set_add (m2a_collectionField r) fields in
      names ← mapM
        (fun collection =>
           pkField ← relationPrimaryKeyField r (VString collection);
           Ok (m2a_junctionField r +:+ ":" +:+ collection +:+ "." +:+ pkField))
        (m2a_allowedCollections r);
      Ok (m2a_junctionCollection r, m2a_junctionPrimaryKeyField r,
          m2a_reverseJunctionField r,
          fold_left (fun s x => set_add x s) names fields)
  | M2M r =>
      let fields := set_add (m2m_junctionPrimaryKeyField r) fields in
      let fields :=
        set_add (m2m_junctionField r +:+ "." +:+ m2m_relatedPrimaryKeyField r) fields in
      Ok (m2m_junctionCollection r, m2m_junctionPrimaryKeyField r,
          m2m_reverseJunctionField r, fields)
  | O2M r =>
      Ok (o2m_relatedCollection r, o2m_relatedPrimaryKeyField r,
          o2m_reverseJunctionField r,
          set_add (o2m_relatedPrimaryKeyField r) fields)
  end.

(** The part of the [try] block of [updateFetchedItems] guarded by
    [itemId.value !== '+']. *)
Definition fetch_items (targetCollection reverseJunctionField : string)
    (fields : list string) : action () := fun st =>
  if negb (strict_eq (itemId st) (VString "+"))
  then
    (_ ← match truthy_field (sortField (relation st)) with
         | Some sortField => updateSortMax targetCollection sortField reverseJunctionField
         | None => mret ()
         end;
     data ← get_request targetCollection (fun st =>
       {| p_search := search (previewQuery st);
          p_fields := Some fields;
          p_filter := Some (item_filter st reverseJunctionField);
          p_aggregate := None;
          p_page := Some (page (previewQuery st));
          p_limit := Some (limit (previewQuery st)) |});
     modify (set_fetchedItems data)) st
  else Done () st.

(** The body of the [try] block of [updateFetchedItems]. *)
Definition fetch_body (targetCollection targetPKField reverseJunctionField : string)
    (fields : list string) : action () :=
  _ ← modify (set_loading true);
  _ ← updateItemCount targetCollection targetPKField reverseJunctionField;
  fetch_items targetCollection reverseJunctionField fields.

Definition updateFetchedItems : action () := fun st =>
  match relation st with
  | None => Done () st
  | Some info =>
      if negb (truthy (itemId st)) || strict_eq (itemId st) (VString "+")
      then Done () (set_fetchedItems [] (set_existingItemCount (Int 0) st))
      else
        match fetch_target info (new_Set (fields (previewQuery st))) with
        | Throw e => Raised e st
        | Ok (targetCollection, targetPKField, reverseJunctionField, fields) =>
            let fields :=
              match truthy_field (sortField (relation st)) with
              | Some sortField => set_add sortField fields
              | None => fields
              end in
            try_catch_finally
              (fetch_body targetCollection targetPKField reverseJunctionField fields)
              unexpectedError
              (modify (set_loading false))
              st
        end
  end.

(** [{ [field]: { _in: keys } }, limit: -1] *)
Definition in_keys (field : string) (keys : list any) : Params :=
  {| p_search := None;
     p_fields := None;
     p_filter := Some (FieldIn field keys);
     p_aggregate := None;
     p_page := None;
     p_limit := Some (-1) |}.

Definition loadSelectedDisplayO2M (relation : RelationO2M) : action () := fun st =>
  if is_empty (selectedOnPage st)
  then Done () (set_fetchedSelectItems [] st)
  else
    let targetCollection := o2m_relatedCollection relation in
    let targetPKField := o2m_relatedPrimaryKeyField relation in
    (data ← get_request targetCollection (fun st =>
       in_keys targetPKField (map (fun item => get item targetPKField) (selectedOnPage st)));
     modify (set_fetchedSelectItems data)) st.

Definition loadSelectedDisplayM2M (relation : RelationM2M) : action () := fun st =>
  if is_empty (selectedOnPage st)
  then Done () (set_fetchedSelectItems [] st)
  else
    let relatedPKField := m2m_relatedPrimaryKeyField relation in
    (keys ← read (fun st =>
       mapM (fun item => prop (get item (m2m_junctionField relation)) relatedPKField)
         (selectedOnPage st));
     data ← get_request (m2m_relatedCollection relation) (fun _ =>
       in_keys relatedPKField keys);
     modify (set_fetchedSelectItems
               (map (fun item => {[ m2m_junctionField relation := VObject item ]}) data))) st.

(** The [reduce] that groups the selected items by collection: the keys
    of the accumulator in the order they were added.  ([Object.entries]
    lists keys that are array indices first; what is stated of the groups
    does not depend on their order.) *)
Fixpoint group_add (collection : string) (item : Item)
    (acc : list (string * list Item)) : list (string * list Item) :=
  match acc with
  | [] => [(collection, [item])]
  | (c, items) :: acc' =>
      if bool_decide (c = collection) then (c, items ++ [item]) :: acc'
      else (c, items) :: group_add collection item acc'
  end.

Definition loadSelectedDisplayM2A (relation : RelationM2A) : action () := fun st =>
  if is_empty (selectedOnPage st)
  then Done () (set_fetchedSelectItems [] st)
  else
    let collectionField := m2a_collectionField relation in
    let selectGrouped :=
      fold_left
        (fun acc item => group_add (ToString (get item collectionField)) item acc)
        (selectedOnPage st) [] in
    (requests ← read (fun _ =>
       mapM
         (fun group : string * list Item =>
            pkField ← relationPrimaryKeyField relation (VString group.1);
            keys ← mapM
              (fun item => prop (get item (m2a_junctionField relation)) pkField)
              group.2;
            Ok (group.1, in_keys pkField keys))
         selectGrouped);
     responses ← read (fun _ =>
       mapM
         (fun request : string * Params =>
            data ← api {| r_collection := request.1; r_params := request.2 |};
            Ok (request.1, data))
         requests);
     modify (set_fetchedSelectItems
               (concat
                  (map
                     (fun response : string * list Item =>
                        map
                          (fun item =>
                             <[m2a_junctionField relation := VObject item]>
                               (<[m2a_collectionField relation := VString response.1]> ∅))
                          response.2)
                     responses)))) st.

Definition loadSelectedDisplay : action () := fun st =>
  match relation st with
  | Some (O2M r) => loadSelectedDisplayO2M r st
  | Some (M2M r) => loadSelectedDisplayM2M r st
  | Some (M2A r) => loadSelectedDisplayM2A r st
  | None => Done () st
  end.

End network.

(** ** Vocabulary of the statements *)

(** The positions of the requested page, in the list of all the items of
    the relation. *)
Definition on_page (q : RelationQueryMultiple) (position : Z) : Prop :=
  (page q - 1) * limit q <= position < page q * limit q.

(** The items of [items] that fall on the requested page when the first of
    them stands at position [offset] of the whole list. *)
Definition page_part {A} (q : RelationQueryMultiple) (offset : Z) (items : list A) : list A :=
  (base.filter (fun ix : Z * A => on_page q ix.1)
     (imap (fun i x => (offset + Z.of_nat i, x)) items)).*2.

(** An entry of the changes that carries no bookkeeping key. *)
Definition dollar_free (entry : any) : Prop :=
  ∀ (o : Item) (k : string),
    entry = VObject o → String.prefix "$" k = true → o !! k = None.

(** A sort value of the declared type [number | null]. *)
Definition number_or_null (v : any) : Prop := v = VNull ∨ ∃ z, v = VNumber (Int z).



(** An entry of the declared type [Record<string, any>]. *)
Definition is_object (v : any) : Prop := ∃ o : Item, v = VObject o.

(** A field name that is not one of the bookkeeping keys, which begin
    with [$]. *)
Definition plain_field (field : string) : Prop := String.prefix "$" field = false.

(** The test [displayItems] makes on an entry of the update list, for an
    entry that is not [null]: it is an object whose primary key equals
    that of the item. *)
Definition edit_matches (targetPKField : string) (item : Item) (edit : any) : bool :=
  match edit with
  | VObject e => strict_eq (get e targetPKField) (get item targetPKField)
  | _ => false
  end.

(** The test [displayItems] makes on an entry of the delete list. *)
Definition delete_matches (targetPKField : string) (item : Item) (id : any) : bool :=
  strict_eq id (get item targetPKField).

(** A primary key of the declared type [string | number]. *)
Definition is_key (v : any) : Prop := (∃ s, v = VString s) ∨ (∃ z, v = VNumber (Int z)).

(** A call of one of the actions the composable returns. *)
Inductive Call :=
| Create (items : list Item)
| Update (items : list Item)
| Remove (items : list Item)
| Select (items : list any) (collection : option string)
| Clear.

Definition run (call : Call) : action () :=
  match call with
  | Create items => create items
  | Update items => update items
  | Remove items => remove items
  | Select items collection => select items collection
  | Clear => clear
  end.

(** ** More vocabulary of the statements *)

(** What [reset] leaves: no changes, no fetched items, a count of zero. *)
Definition was_reset (st : State) : Prop :=
  value st = (if strict_eq (itemId st) (VString "+") then RawUndefined else RawArray [])
  ∧ existingItemCount st = Int 0
  ∧ fetchedItems st = [].

Definition has_changes (c : ChangesItem) : Prop :=
  c_create c ≠ [] ∨ c_update c ≠ [] ∨ c_delete c ≠ [].

(** The values [totalSortMax] hands to [getSortMax] when the entries of
    the create list are objects. *)
Definition sort_inputs (st : State) (field : string) : list any :=
  existingSortMax st
    :: map (fun v => get (spread v) field) (c_create (_value st))
    ++ (if is_o2m (relation st) then map (fun v : Item => get v field) (selected st) else []).

(** Two states that differ at most in what the [value] ref holds. *)
Definition same_except_value (st st' : State) : Prop :=
  previewQuery st' = previewQuery st ∧ relation st' = relation st
  ∧ itemId st' = itemId st ∧ loading st' = loading st
  ∧ fetchedItems st' = fetchedItems st
  ∧ existingItemCount st' = existingItemCount st
  ∧ existingSortMax st' = existingSortMax st
  ∧ fetchedSelectItems st' = fetchedSelectItems st
  ∧ reported st' = reported st.

(** The three requests of [updateFetchedItems], as the source builds
    them. *)
Definition count_request (st : State) (targetCollection targetPKField
    reverseJunctionField : string) : Request :=
  {| r_collection := targetCollection;
     r_params :=
       {| p_search := search (previewQuery st);
          p_fields := None;
          p_filter := Some (item_filter st reverseJunctionField);
          p_aggregate := Some (Count targetPKField);
          p_page := None;
          p_limit := None |} |}.

Definition max_request (st : State) (targetCollection sortField
    reverseJunctionField : string) : Request :=
  {| r_collection := targetCollection;
     r_params :=
       {| p_search := None;
          p_fields := None;
          p_filter := Some (FieldEq reverseJunctionField (itemId st));
          p_aggregate := Some (Max sortField);
          p_page := None;
          p_limit := None |} |}.

Definition items_request (st : State) (targetCollection reverseJunctionField : string)
    (fields : list string) : Request :=
  {| r_collection := targetCollection;
     r_params :=
       {| p_search := search (previewQuery st);
          p_fields := Some fields;
          p_filter := Some (item_filter st reverseJunctionField);
          p_aggregate := None;
          p_page := Some (page (previewQuery st));
          p_limit := Some (limit (previewQuery st)) |} |}.

(** The fields [updateFetchedItems] asks for: those of the switch, and
    the sort field when there is one. *)
Definition requested_fields (st : State) (fields : list string) : list string :=
  match truthy_field (sortField (relation st)) with
  | Some sortField => set_add sortField fields
  | None => fields
  end.

(** [unexpectedError(err)] then the [finally] block, as a state. *)
Definition reported_and_idle (err : JsError) (st : State) : State :=
  set_loading false (final_state (unexpectedError err st)).

(** The grouping of [loadSelectedDisplayM2A]. *)
Definition selectGrouped (collectionField : string) (items : list Item)
  : list (string * list Item) :=
  fold_left
    (fun acc item => group_add (ToString (get item collectionField)) item acc)
    items [].

(** The collection an item of a relation of type m2a belongs to, as the
    property key the grouping uses, and the items of a collection. *)
Definition collection_of (collectionField : string) (item : Item) : string :=
  ToString (get item collectionField).

Definition of_collection (collectionField collection : string) (items : list Item)
  : list Item :=
  base.filter (fun item => collection_of collectionField item = collection) items.

(** The entry [loadSelectedDisplayM2A] keeps for an item [d] of the answer
    for [collection]. *)
Definition m2a_entry (relation : RelationM2A) (collection : string) (d : Item) : Item :=
  <[m2a_junctionField relation := VObject d]>
    (<[m2a_collectionField relation := VString collection]> ∅).

(** The state after a sequence of calls, each started in the state the one
    before it left, whether it completed or threw. *)
Definition run_all (calls : list Call) (st : State) : State :=
  fold_left (fun s call => final_state (run call s)) calls st.

(** A state whose update list has no [null] entry. *)
Definition no_null_edit (st : State) : Prop :=
  Forall (fun edit => edit ≠ VNull) (c_update (_value st)).

(** The integers a JavaScript number holds exactly, as
    [Number.isSafeInteger] tells them: on these, and on the successor of
    one of them, the arithmetic of the language is that of the
    integers. *)
Definition safe_integer (z : Z) : Prop := - 2 ^ 53 < z < 2 ^ 53.

Definition safe_or_null (v : any) : Prop :=
  v = VNull ∨ ∃ z, v = VNumber (Int z) ∧ safe_integer z.

(** A string of decimal digits. *)
Definition decimal_numeral (s : string) : Prop :=
  s ≠ EmptyString
  ∧ Forall (fun c => is_Some (digit_of c)) (String.list_ascii_of_string s).

(** A count as an aggregate delivers it: the safe integer [n], as a
    number or written in decimal digits. *)
Definition integer_count (count : any) (n : Z) : Prop :=
  0 <= n < 2 ^ 53
  ∧ (count = VNumber (Int n)
     ∨ ∃ s, count = VString s ∧ decimal_numeral s ∧ StringToNumber s = Int n).



(** ** Example states *)

Module Examples.

Definition books : Relation :=
  O2M {| o2m_relatedCollection := "books";
         o2m_relatedPrimaryKeyField := "id";
         o2m_reverseJunctionField := "author";
         o2m_sortField := Some "sort" |}.

Definition tags : Relation :=
  M2M {| m2m_relatedCollection := "tags";
         m2m_relatedPrimaryKeyField := "id";
         m2m_junctionCollection := "articles_tags";
         m2m_junctionPrimaryKeyField := "id";
         m2m_junctionField := "tags_id";
         m2m_reverseJunctionField := "articles_id";
         m2m_sortField := None |}.

Definition blocks : Relation :=
  M2A {| m2a_allowedCollections := ["headings"; "paragraphs"];
         m2a_relationPrimaryKeyFields := {[ "headings" := "id"; "paragraphs" := "id" ]};
         m2a_junctionCollection := "pages_blocks";
         m2a_junctionPrimaryKeyField := "id";
         m2a_collectionField := "collection";
         m2a_junctionField := "item";
         m2a_reverseJunctionField := "pages_id";
         m2a_sortField := None |}.

Definition query : RelationQueryMultiple :=
  {| page := 1; limit := 10; fields := ["title"]; search := None;
     query_filter := None |}.

Definition num (z : Z) : any := VNumber (Int z).

Definition book7 : Item := {[ "id" := num 7; "sort" := num 2 ]}.
Definition book8 : Item := {[ "id" := num 8; "sort" := num 1 ]}.

(** Author 1 with two persisted books and no pending change. *)
Definition author : State :=
  {| value := RawArray [num 7; num 8];
     previewQuery := query;
     relation := Some books;
     itemId := num 1;
     loading := false;
     fetchedItems := [book7; book8];
     existingItemCount := Int 2;
     existingSortMax := num 5;
     fetchedSelectItems := [];
     reported := [] |}.

Definition with_relation (info : Relation) (st : State) : State :=
  {| value := value st; previewQuery := previewQuery st; relation := Some info;
     itemId := itemId st; loading := loading st; fetchedItems := fetchedItems st;
     existingItemCount := existingItemCount st; existingSortMax := existingSortMax st;
     fetchedSelectItems := fetchedSelectItems st; reported := reported st |}.

(** The same author after book 9 was selected. *)
Definition author_selected : State :=
  set_value
    (RawChanges
       {| c_create := [];
          c_update := [VObject {[ "author" := num 1; "id" := num 9 ]}];
          c_delete := [] |})
    author.

(** The same author with a new book, an edit of book 7 and the removal of
    book 8 pending. *)
Definition author_edited : State :=
  set_value
    (RawChanges
       {| c_create := [VObject {[ "title" := VString "Persuasion"; "sort" := num 3 ]}];
          c_update := [VObject {[ "id" := num 7; "title" := VString "Emma" ]}];
          c_delete := [num 8] |})
    author.

(** The same author with the removal of the books 7 and 8 pending. *)
Definition author_removing : State :=
  set_value
    (RawChanges {| c_create := []; c_update := []; c_delete := [num 7; num 8] |})
    author.


(** An article and a page, with the many-to-many and the
    many-to-any relation. *)
Definition article : State := with_relation tags author.
Definition page_blocks : State := with_relation blocks author.


(** A server that rejects every request. *)
Definition offline : Api := fun _ => Throw (RequestFailed "offline").

(** A server that answers every request with one row of aggregates. *)
Definition online : Api := fun _ =>
  Ok [ {[ "count" := VObject {[ "id" := num 2 ]};
          "max" := VObject {[ "sort" := num 5 ]} ]} ].

End Examples.

(** * Properties *)

(** ** Induction on values *)

Lemma vsize_lookup (o : Item) (k : string) (v : any) :
  o !! k = Some v → (vsize v < vsize (VObject o))%nat.
Proof.
  intros Hk. cbn [vsize].
  rewrite (map_fold_delete_L _ _ k v o); [lia | | done].
  intros; lia.
Qed.

Lemma any_deep_ind (P : any → Prop) :
  P VUndefined → P VNull → (∀ b, P (VBool b)) → (∀ n, P (VNumber n)) →
  (∀ s, P (VString s)) →
  (∀ o : Item, (∀ k v, o !! k = Some v → P v) → P (VObject o)) →
  ∀ v, P v.
Proof.
  intros Hu Hn Hb Hnum Hs Ho v.
  remember (vsize v) as n eqn:Hsize.
  revert v Hsize. induction (lt_wf n) as [n _ IH]. intros v ->.
  destruct v as [| | b | m | s | o]; auto.
  apply Ho. intros k v Hk. eapply IH; [|reflexivity].
  by eapply vsize_lookup.
Qed.

(** ** Merging *)

Lemma mergeValue_object (src : Item) (objValue : option any) :
  mergeValue (VObject src) objValue
  = VObject (mergeObject
               match objValue with Some (VObject o) => o | _ => ∅ end src).
Proof. reflexivity. Qed.

Lemma lookup_mergeObject (object source : Item) (k : string) :
  mergeObject object source !! k
  = match source !! k with
    | Some sv => Some (mergeValue sv (object !! k))
    | None => object !! k
    end.
Proof.
  unfold mergeObject. rewrite lookup_union, map_lookup_imap.
  destruct (source !! k) as [sv|]; simpl.
  - by destruct (object !! k).
  - by destruct (object !! k).
Qed.

(** Merging a value into a fresh destination copies it. *)
Lemma mergeValue_fresh (v : any) : mergeValue v None = v.
Proof.
  induction v as [| | b | n | s | o IH] using any_deep_ind; try reflexivity.
  rewrite mergeValue_object. f_equal. apply map_eq. intros k.
  rewrite lookup_mergeObject, lookup_empty.
  destruct (o !! k) as [v|] eqn:Hk; [|done].
  f_equal. by eapply IH.
Qed.

Lemma mergeObject_fresh (source : Item) : mergeObject ∅ source = source.
Proof.
  apply map_eq. intros k. rewrite lookup_mergeObject, lookup_empty.
  destruct (source !! k) as [v|]; [|done]. by rewrite mergeValue_fresh.
Qed.

Lemma merge_clone (item : Item) : merge ∅ [VObject (cloneDeep item)] = item.
Proof. unfold merge, cloneDeep. simpl. apply mergeObject_fresh. Qed.

Lemma get_mergeObject_absent (object source : Item) (k : string) :
  source !! k = None → get (mergeObject object source) k = get object k.
Proof. intros H. unfold get. by rewrite lookup_mergeObject, H. Qed.

(** A primitive other than [undefined] in the source is assigned. *)
Lemma get_mergeObject_string (object source : Item) (k s : string) :
  source !! k = Some (VString s) → get (mergeObject object source) k = VString s.
Proof. intros H. unfold get. by rewrite lookup_mergeObject, H. Qed.

Lemma get_mergeObject_number (object source : Item) (k : string) (n : number) :
  source !! k = Some (VNumber n) → get (mergeObject object source) k = VNumber n.
Proof. intros H. unfold get. by rewrite lookup_mergeObject, H. Qed.

(** ** Searching *)


Lemma findIndex_None {A} (p : A → bool) (l : list A) :
  findIndex p l = None ↔ ∀ x, x ∈ l → p x = false.
Proof.
  induction l as [|a l IH]; simpl.
  - split; [intros _ x Hx; by apply elem_of_nil in Hx | done].
  - destruct (p a) eqn:Hp.
    + split; [done|]. intros H. specialize (H a ltac:(left)). congruence.
    + destruct (findIndex p l) as [k|]; simpl.
      * split; [done|]. intros H.
        assert (Some k = None) as Hn; [|done].
        apply IH. intros x Hx. apply H. by right.
      * split; [|done]. intros _ x Hx.
        apply elem_of_cons in Hx as [->|Hx]; [done|]. by apply IH.
Qed.

(** The first element later than the whole of [l]. *)
Lemma findIndex_app_last {A} (p : A → bool) (l : list A) (x : A) :
  (∀ y, y ∈ l → p y = false) → p x = true →
  findIndex p (l ++ [x]) = Some (length l).
Proof.
  intros Hl Hx. induction l as [|a l IH]; simpl.
  - by rewrite Hx.
  - rewrite (Hl a) by left. rewrite IH; [done|].
    intros y Hy. apply Hl. by right.
Qed.

(** When the callback cannot throw, [findIndexM] is [findIndex]. *)
Lemma findIndexM_pure {A} (p : A → result bool) (q : A → bool) (l : list A) :
  (∀ x, x ∈ l → p x = Ok (q x)) → findIndexM p l = Ok (findIndex q l).
Proof.
  induction l as [|a l IH]; intros H; simpl; [done|].
  rewrite (H a) by left. simpl.
  destruct (q a); [done|].
  rewrite IH; [done|]. intros x Hx. apply H. by right.
Qed.


Lemma mapM_result_lookup {A B} (f : A → result B) (l : list A) (k : list B) (i : nat) (x : A) :
  mapM f l = Ok k → l !! i = Some x → ∃ y, k !! i = Some y ∧ f x = Ok y.
Proof.
  revert k i. induction l as [|a l IH]; intros k i; simpl; [done|].
  destruct (f a) as [b|e] eqn:Hfa; simpl; [|done].
  destruct (mapM f l) as [k'|e]; simpl; [|done].
  intros [= <-]. destruct i as [|i]; simpl.
  - intros [= <-]. by exists b.
  - intros Hi. by eapply IH.
Qed.

Lemma mapM_result_pure {A B} (f : A → result B) (g : A → B) (l : list A) :
  (∀ x, x ∈ l → f x = Ok (g x)) → mapM f l = Ok (map g l).
Proof.
  induction l as [|a l IH]; intros H; simpl; [done|].
  rewrite (H a) by left. simpl. rewrite IH; [done|].
  intros x Hx. apply H. by right.
Qed.

(** ** Counts *)

Lemma num_add_0_r (n : number) : num_add n (Int 0) = n.
Proof. destruct n as [|z]; simpl; [done|]. f_equal. lia. Qed.

Lemma selected_length_le (st : State) :
  (length (selected st)
   ≤ length (if is_o2m (relation st) then c_update (_value st) else c_create (_value st)))%nat.
Proof.
  unfold selected. destruct (relation st) as [info|]; [|simpl; lia].
  destruct (is_o2m (Some info)).
  - etrans; [apply length_filter|]. by rewrite length_imap.
  - etrans; [apply length_filter|]. by rewrite length_imap.
Qed.

(** C2. [totalItemCount] is the count of the existing items plus the
    number of entries of the create list, plus, for a relation of type
    o2m and only for it, the number of selected items.  For the other
    relation types the selected items are entries of the create list, so
    they are counted there and not a second time. *)
Theorem totalItemCount_spec (st : State) :
  totalItemCount st
  = num_add
      (num_add (existingItemCount st) (Int (Z.of_nat (length (c_create (_value st))))))
      (Int (if is_o2m (relation st) then Z.of_nat (length (selected st)) else 0))
  ∧ (is_o2m (relation st) = false →
     totalItemCount st
     = num_add (existingItemCount st) (Int (Z.of_nat (length (c_create (_value st)))))
     ∧ (length (selected st) ≤ length (c_create (_value st)))%nat).
Proof.
  unfold totalItemCount. split.
  - destruct (is_o2m (relation st)); [done|]. by rewrite num_add_0_r.
  - intros Hno. split.
    + by rewrite Hno.
    + pose proof (selected_length_le st) as H. by rewrite Hno in H.
Qed.

Lemma totalItemCount_spec_witness :
  totalItemCount Examples.article = Int 2
  ∧ totalItemCount Examples.author_selected = Int 3.
Proof.
  split.
  - destruct (totalItemCount_spec Examples.article) as [_ H].
    destruct (H eq_refl) as [-> _]. reflexivity.
  - destruct (totalItemCount_spec Examples.author_selected) as [-> _]. reflexivity.
Defined.

(** ** Pages *)

Lemma clamp_Int (z lower upper : Z) :
  clamp (Int z) lower upper = Int (Z.max lower (Z.min z upper)).
Proof.
  unfold clamp. f_equal.
  destruct (Z.leb_spec z upper), (Z.leb_spec lower (Z.min z upper)); 
    repeat match goal with |- context [?a <=? ?b] => destruct (Z.leb_spec a b) end; lia.
Qed.

Lemma slice_inside {A} (s e : Z) (l : list A) :
  0 <= s <= Z.of_nat (length l) → 0 <= e <= Z.of_nat (length l) →
  slice (Int s) (Int e) l = take (Z.to_nat e - Z.to_nat s) (drop (Z.to_nat s) l).
Proof.
  intros Hs He. unfold slice, relative_index. simpl.
  destruct (Z.ltb_spec s 0), (Z.ltb_spec e 0); try lia.
  rewrite !Z.min_l by lia. f_equal. lia.
Qed.

Lemma page_part_bounds {A} (q : RelationQueryMultiple) (offset : Z) (l : list A) :
  let n := Z.of_nat (length l) in
  page_part q offset l
  = take (Z.to_nat (Z.max 0 (Z.min (page q * limit q - offset) n))
          - Z.to_nat (Z.max 0 (Z.min ((page q - 1) * limit q - offset) n)))
      (drop (Z.to_nat (Z.max 0 (Z.min ((page q - 1) * limit q - offset) n))) l).
Proof.
  unfold page_part. revert offset.
  induction l as [|x l IH]; intros offset; simpl.
  - by rewrite drop_nil, take_nil.
  - rewrite filter_cons. unfold on_page at 1. simpl.
    assert (imap ((fun i (y : A) => (offset + Z.of_nat i, y)) ∘ S) l
            = imap (fun i (y : A) => (offset + 1 + Z.of_nat i, y)) l) as ->.
    { apply imap_ext. intros i y _. simpl. f_equal. lia. }
    pose proof (IH (offset + 1)) as IH'. clear IH. cbv zeta in IH'.
    set (lo := (page q - 1) * limit q) in *. set (hi := page q * limit q) in *.
    set (n := Z.of_nat (length l)) in *.
    replace (Z.of_nat (S (length l))) with (n + 1) by lia.
    replace (offset + Z.of_nat 0) with offset by lia.
    case_decide as Hin.
    + rewrite fmap_cons, IH'. simpl.
      replace (Z.to_nat (Z.max 0 (Z.min (lo - offset) (n + 1)))) with 0%nat by lia.
      replace (Z.to_nat (Z.max 0 (Z.min (lo - (offset + 1)) n))) with 0%nat by lia.
      replace (Z.to_nat (Z.max 0 (Z.min (hi - offset) (n + 1))) - 0)%nat
        with (S (Z.to_nat (Z.max 0 (Z.min (hi - (offset + 1)) n)) - 0))%nat by lia.
      reflexivity.
    + rewrite IH'. destruct (decide (lo <= offset)) as [Hlo|Hlo].
      * assert (hi <= offset) by lia.
        replace (Z.to_nat (Z.max 0 (Z.min (hi - offset) (n + 1)))) with 0%nat by lia.
        replace (Z.to_nat (Z.max 0 (Z.min (hi - (offset + 1)) n))) with 0%nat by lia.
        simpl. by rewrite !take_0.
      * replace (Z.to_nat (Z.max 0 (Z.min (lo - offset) (n + 1))))
          with (S (Z.to_nat (Z.max 0 (Z.min (lo - (offset + 1)) n)))) by lia.
        simpl. f_equal. lia.
Qed.

Lemma getPage_window {A} (st : State) (offset : Z) (items : list A) :
  limit (previewQuery st) ≠ -1 →
  getPage st (Int offset) items = page_part (previewQuery st) offset items.
Proof.
  intros Hlimit. unfold getPage.
  destruct (Z.eqb_spec (limit (previewQuery st)) (-1)) as [|_]; [done|].
  cbn [num_sub]. rewrite !clamp_Int, page_part_bounds.
  rewrite slice_inside by lia.
  cbv zeta. repeat f_equal; lia.
Qed.

(** The structure of the array built by [displayItems]. *)
Lemma mergedItems_inv (st : State) (info : Relation) (items : list Item) :
  mergedItems st info = Ok items →
  ∃ fetched selectedOnPage created,
    mapM (displayFetched st (targetPKField info)) (fetchedItems st) = Ok fetched
    ∧ mapM (displaySelected st info) (selected st) = Ok selectedOnPage
    ∧ createdItems st = Ok created
    ∧ items
      = fetched ++ selectedOnPage
          ++ imap (tagged "created")
               (getPage st
                  (num_add (existingItemCount st) (Int (Z.of_nat (length (selected st)))))
                  created).
Proof.
  unfold mergedItems.
  destruct (mapM (displayFetched st (targetPKField info)) (fetchedItems st)) as [f|]; [|done].
  destruct (mapM (displaySelected st info) (selected st)) as [s|]; [|done].
  destruct (createdItems st) as [c|]; [|done].
  simpl. intros [= <-]. by exists f, s, c.
Qed.

(** C4. The slice [getPage] takes of a list of locally held items is
    [items.slice(clamp((page - 1) * limit - offset, 0, n),
    clamp(page * limit - offset, 0, n))] with [n] the length of the list;
    these are exactly the items that fall on the requested page when
    [offset] items come before them; with a limit of [-1] the whole list is
    returned.  The display view takes this slice of the created items,
    after the existing and the selected items. *)
Theorem getPage_spec {A} (st : State) (offset : number) (items : list A) :
  let q := previewQuery st in
  let n := Z.of_nat (length items) in
  (limit q = -1 → getPage st offset items = items)
  ∧ (limit q ≠ -1 →
     getPage st offset items
     = slice (clamp (num_sub (Int ((page q - 1) * limit q)) offset) 0 n)
         (clamp (num_sub (Int (page q * limit q)) offset) 0 n) items)
  ∧ (∀ position : Z, limit q ≠ -1 → offset = Int position →
     getPage st offset items = page_part q position items)
  ∧ (∀ info display, mergedItems st info = Ok display →
     ∃ before created,
       createdItems st = Ok created
       ∧ display
         = before
             ++ imap (tagged "created")
                  (getPage st
                     (num_add (existingItemCount st) (Int (Z.of_nat (length (selected st)))))
                     created)).
Proof.
  intros q n. repeat split.
  - intros Hl. unfold getPage. fold q. by rewrite Hl.
  - intros Hl. unfold getPage. fold q.
    by destruct (Z.eqb_spec (limit q) (-1)).
  - intros position Hl ->. by apply getPage_window.
  - intros info display (f & s & c & _ & _ & Hc & ->)%mergedItems_inv.
    exists (f ++ s), c. split; [done|]. by rewrite <- app_assoc.
Qed.

Lemma getPage_spec_witness :
  getPage Examples.author (Int 8) [1; 2; 3]%nat = [1; 2]%nat.
Proof.
  destruct (getPage_spec Examples.author (Int 8) [1; 2; 3]%nat) as (_ & _ & H & _).
  rewrite (H 8); [reflexivity | done | done].
Defined.

(** ** The changes after an action *)

Lemma bind_Done {A B} (m : action A) (k : A → action B) (st st' : State) (a : A) :
  m st = Done a st' → (m ≫= k) st = k a st'.
Proof. unfold mbind, action_bind. by intros ->. Qed.

Lemma bind_Raised {A B} (m : action A) (k : A → action B) (st st' : State) (e : JsError) :
  m st = Raised e st' → (m ≫= k) st = Raised e st'.
Proof. unfold mbind, action_bind. by intros ->. Qed.

Lemma _value_set_value (c : ChangesItem) (st : State) :
  _value (set_value (RawChanges c) st) = c.
Proof. reflexivity. Qed.

Lemma change_Done (f : ChangesItem → ChangesItem) (st : State) :
  change f st = Done () (set_value (RawChanges (f (_value st))) st).
Proof. reflexivity. Qed.

(** [updateValue] completes and leaves the three lists as they are. *)
Lemma updateValue_Done (st : State) :
  ∃ st', updateValue st = Done () st' ∧ _value st' = _value st
         ∧ relation st' = relation st ∧ itemId st' = itemId st
         ∧ previewQuery st' = previewQuery st
         ∧ (c_delete (_value st) ≠ [] → fetchedItems st' = fetchedItems st).
Proof.
  unfold updateValue. rewrite !_value_set_value. unfold cloneDeep.
  destruct (_value st) as [c u d] eqn:Hv.
  destruct c, u, d; simpl; eexists; (split; [reflexivity|]);
    unfold _value; simpl; try done.
  by destruct (strict_eq (itemId st) (VString "+")).
Qed.

Lemma cleanItem_lookup (item : Item) (k : string) :
  cleanItem item !! k = if String.prefix "$" k then None else item !! k.
Proof.
  unfold cleanItem. rewrite map_lookup_filter.
  destruct (item !! k) as [v|]; simpl.
  - case_guard as Hp; simpl in Hp; [by rewrite Hp|].
    by destruct (String.prefix "$" k).
  - by destruct (String.prefix "$" k).
Qed.

Lemma cleanItem_dollar_free (item : Item) : dollar_free (VObject (cleanItem item)).
Proof. intros o k [= <-] Hk. by rewrite cleanItem_lookup, Hk. Qed.

Lemma create_entry_inv (item : Item) (st : State) :
  (∃ source, create_entry item st = Done (cleanItem source) st)
  ∨ (∃ e, create_entry item st = Raised e st).
Proof.
  unfold create_entry.
  destruct (truthy_field (sortField (relation st))) as [sf|]; [|by left; eexists].
  destruct (isNil (get item sf)); [|by left; eexists].
  destruct (totalSortMax st) as [max|e]; [left | right]; by eexists.
Qed.

(** The loop of [create] appends cleaned items to the create list and
    touches nothing else. *)
Lemma create_loop (items : list Item) (st : State) :
  let o := for_of items
             (fun item => entry ← create_entry item;
                          change (set_create (push (VObject entry)))) st in
  ∃ sources,
    c_create (_value (final_state o))
    = c_create (_value st) ++ map (fun s => VObject (cleanItem s)) sources
    ∧ c_update (_value (final_state o)) = c_update (_value st)
    ∧ c_delete (_value (final_state o)) = c_delete (_value st)
    ∧ (∀ st', o = Done () st' → length sources = length items).
Proof.
  revert st. induction items as [|item items IH]; intros st; simpl.
  - exists []. simpl. by rewrite app_nil_r.
  - destruct (create_entry_inv item st) as [[source Hs]|[e He]].
    + assert ((create_entry item
                 ≫= fun entry => change (set_create (push (VObject entry)))) st
              = Done () (set_value
                           (RawChanges
                              (set_create (push (VObject (cleanItem source))) (_value st)))
                           st)) as Hbody.
      { by rewrite (bind_Done _ _ _ _ _ Hs). }
      rewrite (bind_Done _ _ _ _ _ Hbody).
      set (st1 := set_value _ st).
      destruct (IH st1) as (sources & Hc & Hu & Hd & Hlen).
      exists (source :: sources). cbv zeta in *.
      rewrite Hc, Hu, Hd. subst st1. rewrite !_value_set_value. simpl.
      unfold push. rewrite <- app_assoc. simpl. repeat split; try done.
      intros st' Hst'. f_equal. by eapply Hlen.
    + assert ((create_entry item
                 ≫= fun entry => change (set_create (push (VObject entry)))) st
              = Raised e st) as Hbody.
      { by rewrite (bind_Raised _ _ _ _ _ He). }
      rewrite (bind_Raised _ _ _ _ _ Hbody).
      exists []. simpl. by rewrite app_nil_r.
Qed.

Lemma dollar_free_array_set (key x : any) (l : list any) :
  dollar_free x → Forall dollar_free l → Forall dollar_free (array_set key x l).
Proof.
  intros Hx Hl. unfold array_set. destruct (array_index key) as [i|]; [|done].
  destruct (Nat.ltb i (length l)).
  - by apply Forall_insert.
  - apply Forall_app. split; [done|]. apply Forall_app. split; [|by repeat constructor].
    apply Forall_replicate. by intros o k [=].
Qed.

Lemma dollar_free_splice1 (start : any) (l : list any) :
  Forall dollar_free l → Forall dollar_free (splice1 start l).
Proof.
  intros Hl. unfold splice1. apply Forall_app. split.
  - by apply Forall_take.
  - by apply Forall_drop.
Qed.

(** A loop whose steps keep the create list free of [$] keys keeps it so. *)
Lemma for_of_invariant {A} (P : State → Prop) (body : A → action ()) (l : list A) (st : State) :
  (∀ x s, P s → P (final_state (body x s))) →
  P st → P (final_state (for_of l body st)).
Proof.
  intros Hbody. revert st. induction l as [|x l IH]; intros st Hst; simpl; [done|].
  unfold mbind, action_bind. specialize (Hbody x st Hst).
  destruct (body x st) as [[] s|e s]; simpl in *; [by apply IH | done].
Qed.

Lemma then_updateValue (P : ChangesItem → Prop) (m : action ()) (st : State) :
  P (_value (final_state (m st))) →
  P (_value (final_state ((m ≫= fun _ => updateValue) st))).
Proof.
  unfold mbind, action_bind. destruct (m st) as [[] s|e s]; simpl; [|done].
  destruct (updateValue_Done s) as (s' & Hu & Hv & _).
  rewrite Hu. simpl. by rewrite Hv.
Qed.

Lemma update_one_dollar_free (item : Item) (st : State) :
  Forall dollar_free (c_create (_value st)) →
  Forall dollar_free (c_create (_value (final_state (update_one item st)))).
Proof.
  intros H. unfold update_one.
  repeat match goal with
         | |- context [if ?b then _ else _] => destruct b
         end; simpl; try done.
  apply dollar_free_array_set; [apply cleanItem_dollar_free | done].
Qed.

Lemma remove_one_dollar_free (pkField : string) (item : Item) (st : State) :
  Forall dollar_free (c_create (_value st)) →
  Forall dollar_free (c_create (_value (final_state (remove_one pkField item st)))).
Proof.
  intros H. unfold remove_one.
  repeat match goal with
         | |- context [if ?b then _ else _] => destruct b
         end; simpl; try done.
  by apply dollar_free_splice1.
Qed.

Lemma create_dollar_free (items : list Item) (st : State) :
  Forall dollar_free (c_create (_value st)) →
  Forall dollar_free (c_create (_value (final_state (create items st)))).
Proof.
  intros H. unfold create.
  apply (then_updateValue (fun c => Forall dollar_free (c_create c))).
  apply (for_of_invariant (fun s => Forall dollar_free (c_create (_value s)))); [|done].
  intros item s Hs. unfold mbind, action_bind.
  destruct (create_entry_inv item s) as [[source ->]|[e ->]]; simpl; [|done].
  apply Forall_app. split; [done|]. repeat constructor. apply cleanItem_dollar_free.
Qed.

Lemma update_dollar_free (items : list Item) (st : State) :
  Forall dollar_free (c_create (_value st)) →
  Forall dollar_free (c_create (_value (final_state (update items st)))).
Proof.
  intros H. unfold update. destruct (relation st); [|done].
  apply (then_updateValue (fun c => Forall dollar_free (c_create c))).
  apply (for_of_invariant (fun s => Forall dollar_free (c_create (_value s)))); [|done].
  intros item s Hs. by apply update_one_dollar_free.
Qed.

(** Every action keeps the create list free of [$] keys. *)
Lemma run_dollar_free (call : Call) (st : State) :
  Forall dollar_free (c_create (_value st)) →
  Forall dollar_free (c_create (_value (final_state (run call st)))).
Proof.
  intros H. destruct call as [items|items|items|ids collection|]; simpl.
  - by apply create_dollar_free.
  - by apply update_dollar_free.
  - unfold remove. destruct (relation st) as [info|]; [|done].
    apply (then_updateValue (fun c => Forall dollar_free (c_create c))).
    apply (for_of_invariant (fun s => Forall dollar_free (c_create (_value s)))); [|done].
    intros item s Hs. by apply remove_one_dollar_free.
  - unfold select. destruct (relation st) as [info|] eqn:Hrel; [|done].
    unfold mbind, action_bind, read.
    destruct (mapM _ ids) as [entries|e]; [|done].
    destruct (is_o2m (Some info)); [by apply update_dollar_free | by apply create_dollar_free].
  - unfold clear. destruct (relation st); [|done]. simpl.
    destruct (strict_eq (itemId st) (VString "+")); constructor.
Qed.

(** C8. [cleanItem] keeps exactly the keys of the item that do not begin
    with [$], each with its value; [create] appends cleaned items only to
    the create list, so when the entries of the create list carried no
    [$] key before the call, none does after it; the other actions keep
    the create list free of [$] keys as well. *)
Theorem cleanItem_create_spec :
  (∀ (item : Item) (k : string),
     cleanItem item !! k = if String.prefix "$" k then None else item !! k)
  ∧ (∀ (items : list Item) (st : State),
       let st' := final_state (create items st) in
       (∃ sources,
          c_create (_value st')
          = c_create (_value st) ++ map (fun s => VObject (cleanItem s)) sources)
       ∧ (Forall dollar_free (c_create (_value st)) →
          Forall dollar_free (c_create (_value st'))))
  ∧ (∀ (call : Call) (st : State),
       Forall dollar_free (c_create (_value st)) →
       Forall dollar_free (c_create (_value (final_state (run call st))))).
Proof.
  split; [apply cleanItem_lookup|]. split; [|apply run_dollar_free].
  intros items st st'.
  assert (∃ sources,
            c_create (_value st')
            = c_create (_value st) ++ map (fun s => VObject (cleanItem s)) sources)
    as [sources Hc].
  { subst st'. unfold create.
    destruct (create_loop items st) as (sources & Hc & _).
    cbv zeta in Hc. exists sources.
    destruct (for_of items _ st) as [[] st1|e st1] eqn:Hloop.
    - rewrite (bind_Done _ _ _ _ _ Hloop).
      destruct (updateValue_Done st1) as (st2 & Hu & Hv & _).
      rewrite Hu. simpl in *. by rewrite Hv.
    - by rewrite (bind_Raised _ _ _ _ _ Hloop). }
  split; [by exists sources|].
  intros Hfree. rewrite Hc. apply Forall_app. split; [done|].
  apply Forall_forall. intros x (s & -> & _)%list_elem_of_fmap.
  apply cleanItem_dollar_free.
Qed.

Lemma cleanItem_create_spec_witness :
  Forall dollar_free
    (c_create (_value (final_state
       (create [ {[ "title" := VString "Emma"; "$type" := VString "created" ]} ]
          Examples.author)))).
Proof.
  destruct cleanItem_create_spec as (_ & H & _).
  apply (H [ {[ "title" := VString "Emma"; "$type" := VString "created" ]} ]
           Examples.author).
  apply Forall_nil_2.
Defined.

(** ** The sort maximum *)

Lemma getSortMax_fold (acc : any) (values : list any) :
  number_or_null acc → Forall number_or_null values →
  let r := fold_left
             (fun max v =>
                if is_null max then v else if is_null v then max else Math_max max v)
             values acc in
  number_or_null r
  ∧ (r = VNull ↔ acc = VNull ∧ Forall (fun v => v = VNull) values)
  ∧ (∀ z, r = VNumber (Int z) →
       (acc = VNumber (Int z) ∨ VNumber (Int z) ∈ values)
       ∧ (∀ z', acc = VNumber (Int z') ∨ VNumber (Int z') ∈ values → z' <= z)).
Proof.
  intros Hacc Hvalues. revert acc Hacc.
  induction Hvalues as [|v values Hv Hvalues IH]; intros acc Hacc; simpl.
  - split; [done|]. split.
    + split; [by intros -> | by intros [-> _]].
    + intros z ->. split; [by left|].
      intros z' [[= ->]|Hin]; [lia | by apply elem_of_nil in Hin].
  - set (acc' := if is_null acc then v
                 else if is_null v then acc else Math_max acc v).
    assert (number_or_null acc'
            ∧ (acc' = VNull ↔ acc = VNull ∧ v = VNull)
            ∧ ∀ z, acc' = VNumber (Int z) →
                (acc = VNumber (Int z) ∨ v = VNumber (Int z))
                ∧ (∀ z', acc = VNumber (Int z') ∨ v = VNumber (Int z') → z' <= z))
      as (Hn & Hnull & Hmax).
    { subst acc'. destruct Hacc as [->|[a ->]], Hv as [->|[b ->]]; simpl.
      - split; [by left|]. split; [done|]. intros z [=].
      - split; [right; by eexists|]. split; [by split; [|intros [_ ?]]|].
        intros z [= <-]. split; [by right|]. intros z' [[=]|[= ->]]. lia.
      - split; [right; by eexists|]. split; [by split; [|intros [? _]]|].
        intros z [= <-]. split; [by left|]. intros z' [[= ->]|[=]]. lia.
      - split; [right; by eexists|]. split; [by split; [|intros [? _]]|].
        intros z [= <-]. split.
        + destruct (Z.max_spec a b) as [[_ ->]|[_ ->]]; [by right | by left].
        + intros z' [[= ->]|[= ->]]; lia. }
    destruct (IH acc' Hn) as (Hr & Hrnull & Hrmax). cbv zeta in *.
    split; [done|]. split.
    + rewrite Hrnull, Hnull, Forall_cons. tauto.
    + intros z Hz. destruct (Hrmax z Hz) as [Hmem Hub]. split.
      * destruct Hmem as [Ha|Hin]; [|right; by right].
        destruct (Hmax z Ha) as [[?|?] _]; [by left | right; subst; by left].
      * intros z' [Ha|Hin].
        -- destruct Hn as [Hn|[m Hm]].
           ++ apply Hnull in Hn as [-> _]. done.
           ++ destruct (Hmax m Hm) as [_ Hle].
              etrans; [apply Hle; by left|]. apply Hub. by left.
        -- apply elem_of_cons in Hin as [Hv'|Hin]; [|apply Hub; by right].
           destruct Hn as [Hn|[m Hm]].
           ++ apply Hnull in Hn as [_ ->]. done.
           ++ destruct (Hmax m Hm) as [_ Hle].
              etrans; [apply Hle; by right|]. apply Hub. by left.
Qed.

(** On inputs of the declared type [(number | null)[]], [getSortMax] is
    the maximum of the numbers among them, and [null] exactly when there is
    none. *)
Lemma getSortMax_typed (values : list any) :
  Forall number_or_null values →
  (getSortMax values = VNull ↔ Forall (fun v => v = VNull) values)
  ∧ (∀ z, getSortMax values = VNumber (Int z) →
       VNumber (Int z) ∈ values ∧ ∀ z', VNumber (Int z') ∈ values → z' <= z)
  ∧ number_or_null (getSortMax values).
Proof.
  intros Hvalues.
  destruct (getSortMax_fold VNull values (or_introl eq_refl) Hvalues) as (Hn & Hnull & Hmax).
  cbv zeta in *. fold (getSortMax values) in *. split; [|split; [|done]].
  - rewrite Hnull. tauto.
  - intros z Hz. destruct (Hmax z Hz) as [[?|Hin] Hub]; [done|].
    split; [done|]. intros z' Hz'. apply Hub. by right.
Qed.

Lemma totalSortMax_no_sortField (st : State) :
  truthy_field (sortField (relation st)) = None → totalSortMax st = Ok VNull.
Proof. unfold totalSortMax. by intros ->. Qed.

(** C3, at the input where the code departs from it.  Author 1 has books
    with a sort maximum of 5; [select] is called with book 9.  The entry
    [select] records has no sort value, so [getSortMax] receives
    [undefined], which its test [=== null] does not skip, and
    [totalSortMax] is [NaN] instead of the maximum 5 of its inputs.  A
    book created next is given the sort value 1; before the selection it
    would have been given 6. *)
Theorem totalSortMax_selected_NaN :
  select [Examples.num 9] None Examples.author = Done () Examples.author_selected
  ∧ existingSortMax Examples.author_selected = Examples.num 5
  ∧ map (fun v : Item => get v "sort") (selected Examples.author_selected) = [VUndefined]
  ∧ totalSortMax Examples.author_selected = Ok (VNumber NaN)
  ∧ c_create (_value (final_state
       (create [ {[ "title" := VString "Persuasion" ]} ] Examples.author_selected)))
    = [VObject {[ "title" := VString "Persuasion"; "sort" := Examples.num 1 ]}]
  ∧ c_create (_value (final_state
       (create [ {[ "title" := VString "Persuasion" ]} ] Examples.author)))
    = [VObject {[ "title" := VString "Persuasion"; "sort" := Examples.num 6 ]}].
Proof. repeat split; vm_compute; reflexivity. Qed.

(** ** Sorting *)

Lemma sort_insert_Permutation {A} (compare : A → A → number) (x : A) (l : list A) :
  sort_insert compare x l ≡ₚ x :: l.
Proof.
  induction l as [|y l IH]; simpl; [done|].
  destruct (num_gtb (compare x y) (Int 0)); [|done].
  rewrite IH. apply Permutation_swap.
Qed.

Lemma sort_Permutation {A} (compare : A → A → number) (l : list A) :
  sort compare l ≡ₚ l.
Proof.
  induction l as [|x l IH]; simpl; [done|].
  unfold sort in *. simpl. by rewrite sort_insert_Permutation, IH.
Qed.








(** ** Selecting *)

Lemma read_Ok {A} (f : State → result A) (st : State) (a : A) :
  f st = Ok a → read f st = Done a st.
Proof. unfold read. by intros ->. Qed.

Lemma read_Throw {A} (f : State → result A) (st : State) (e : JsError) :
  f st = Throw e → read f st = Raised e st.
Proof. unfold read. by intros ->. Qed.

(** C9, as the code has it: for a relation of type m2a, [select] called
    with at least one id and without a collection throws, and the state,
    hence the create, update and delete lists, is left as it was. *)
Theorem select_m2a_no_collection (st : State) (r : RelationM2A)
    (items : list any) (collection : option string) :
  relation st = Some (M2A r) →
  no_collection collection = true →
  items ≠ [] →
  select items collection st
  = Raised (Error "You need to provide a collection on an m2a") st.
Proof.
  intros Hrel Hno Hitems. unfold select. rewrite Hrel.
  apply bind_Raised, read_Throw.
  destruct items as [|item items]; [done|].
  simpl. by rewrite Hno.
Qed.

Lemma select_m2a_no_collection_witness :
  select [Examples.num 3] None Examples.page_blocks
  = Raised (Error "You need to provide a collection on an m2a") Examples.page_blocks.
Proof.
  apply (select_m2a_no_collection Examples.page_blocks _ [Examples.num 3] None eq_refl eq_refl).
  discriminate.
Defined.

(** C9 fails for an empty list of ids: the test for the collection sits
    in the callback of [items.map], which is never run, so the call
    completes without an error (and, no change being pending, resets the
    fetched items). *)
Lemma select_m2a_empty_completes :
  is_o2m (relation Examples.page_blocks) = false
  ∧ select [] None Examples.page_blocks
    = Done ()
        (set_fetchedItems []
           (set_existingItemCount (Int 0) (set_value (RawArray []) Examples.page_blocks)))
  ∧ ¬ (∃ e st', select [] None Examples.page_blocks = Raised e st').
Proof.
  split; [reflexivity|]. split; [vm_compute; reflexivity|].
  intros (e & st' & H). vm_compute in H. discriminate H.
Qed.

Lemma get_insert_eq (o : Item) (k : string) (v : any) : get (<[k := v]> o) k = v.
Proof. unfold get. by rewrite lookup_insert_eq. Qed.

Lemma get_insert_ne (o : Item) (k k' : string) (v : any) :
  k ≠ k' → get (<[k := v]> o) k' = get o k'.
Proof. intros H. unfold get. by rewrite lookup_insert_ne. Qed.

Lemma get_cleanItem (item : Item) (k : string) :
  plain_field k → get (cleanItem item) k = get item k.
Proof. intros H. unfold get. by rewrite cleanItem_lookup, H. Qed.

Lemma plain_field_ne (k : string) : plain_field k → k ≠ "$type" ∧ k ≠ "$index".
Proof. unfold plain_field. split; intros ->; discriminate. Qed.

(** With entries of the declared type in the create list, [totalSortMax]
    does not throw. *)
Lemma totalSortMax_Ok (st : State) :
  Forall is_object (c_create (_value st)) → ∃ max, totalSortMax st = Ok max.
Proof.
  intros Hobj. unfold totalSortMax.
  destruct (truthy_field (sortField (relation st))) as [sf|]; [|by eexists].
  rewrite (mapM_result_pure _ (fun v => get (spread v) sf)).
  - simpl. destruct (is_o2m (relation st)); by eexists.
  - intros v Hv. eapply Forall_forall in Hobj as [o ->]; [|done]. done.
Qed.

(** What [create] stores keeps every plain field that has a value. *)
Lemma create_entry_Done (item : Item) (st : State) :
  Forall is_object (c_create (_value st)) →
  ∃ entry, create_entry item st = Done entry st
           ∧ ∀ k, plain_field k → isNil (get item k) = false → get entry k = get item k.
Proof.
  intros Hobj. unfold create_entry.
  destruct (truthy_field (sortField (relation st))) as [sf|] eqn:Hsf.
  - destruct (isNil (get item sf)) eqn:Hnil.
    + destruct (totalSortMax_Ok st Hobj) as [max ->].
      eexists. split; [done|]. intros k Hk Hv.
      rewrite get_cleanItem by done. apply get_insert_ne. intros ->. congruence.
    + eexists. split; [done|]. intros k Hk _. by apply get_cleanItem.
  - eexists. split; [done|]. intros k Hk _. by apply get_cleanItem.
Qed.

Lemma create_loop_Done (items : list Item) (st : State) :
  Forall is_object (c_create (_value st)) →
  ∃ entries st',
    for_of items
      (fun item => entry ← create_entry item;
                   change (set_create (push (VObject entry)))) st
    = Done () st'
    ∧ _value st'
      = set_create (fun l => l ++ map VObject entries) (_value st)
    ∧ Forall2
        (fun (item entry : Item) =>
           ∀ k, plain_field k → isNil (get item k) = false → get entry k = get item k)
        items entries.
Proof.
  revert st. induction items as [|item items IH]; intros st Hobj.
  - exists [], st. simpl. split; [done|]. split; [|constructor].
    unfold set_create. rewrite app_nil_r. by destruct (_value st).
  - destruct (create_entry_Done item st Hobj) as (entry & Hentry & Hkeep).
    set (st1 := set_value
                  (RawChanges (set_create (push (VObject entry)) (_value st))) st).
    destruct (IH st1) as (entries & st' & Hloop & Hv & Hall).
    { subst st1. rewrite _value_set_value. simpl. apply Forall_app. split; [done|].
      repeat constructor. by eexists. }
    exists (entry :: entries), st'. split; [|split].
    + cbn [for_of].
      assert ((create_entry item
                 ≫= fun entry => change (set_create (push (VObject entry)))) st
              = Done () st1) as Hbody.
      { by rewrite (bind_Done _ _ _ _ _ Hentry). }
      by rewrite (bind_Done _ _ _ _ _ Hbody).
    + rewrite Hv. subst st1. rewrite _value_set_value. unfold set_create, push. simpl.
      by rewrite <- app_assoc.
    + by constructor.
Qed.






(** ** The display records *)

Lemma is_edit_of_pure (targetPKField : string) (item : Item) (edit : any) :
  edit ≠ VNull →
  is_edit_of targetPKField item edit = Ok (edit_matches targetPKField item edit).
Proof. by destruct edit. Qed.

(** The record built for a fetched item, when no entry of the update list
    is [null]. *)
Lemma displayFetched_Ok (st : State) (targetPKField : string) (item : Item) :
  Forall (fun edit => edit ≠ VNull) (c_update (_value st)) →
  displayFetched st targetPKField item
  = Ok (let updatedItem :=
          match findIndex (edit_matches targetPKField item) (c_update (_value st)) with
          | Some i =>
              merge ∅ [ VObject item; VObject (updated_tags i);
                        default VUndefined (c_update (_value st) !! i) ]
          | None => item
          end in
        match findIndex (delete_matches targetPKField item) (c_delete (_value st)) with
        | Some d => mergeObject updatedItem (deleted_tags d)
        | None => updatedItem
        end).
Proof.
  intros Hupd. unfold displayFetched.
  rewrite (findIndexM_pure _ (edit_matches targetPKField item)).
  2: { intros x Hx. apply is_edit_of_pure. by eapply Forall_forall in Hupd. }
  cbn [mbind result_bind]. fold (delete_matches targetPKField item).
  rewrite merge_clone. unfold cloneDeep.
  by destruct (findIndex (delete_matches targetPKField item) (c_delete (_value st))).
Qed.




Lemma deleted_tags_lookup (d : nat) (item : Item) :
  let record := mergeObject item (deleted_tags d) in
  get record "$type" = VString "deleted"
  ∧ get record "$index" = VNumber (Int (Z.of_nat d))
  ∧ ∀ k, k ≠ "$type" → k ≠ "$index" → record !! k = item !! k.
Proof.
  intros record. subst record. repeat split.
  - apply get_mergeObject_string. reflexivity.
  - apply get_mergeObject_number. reflexivity.
  - intros k Ht Hi. rewrite lookup_mergeObject. unfold deleted_tags.
    by rewrite lookup_insert_ne, lookup_singleton_ne.
Qed.

Lemma tagged_lookup (type : string) (index : nat) (item : any) :
  get (tagged type index item) "$type" = VString type
  ∧ get (tagged type index item) "$index" = VNumber (Int (Z.of_nat index))
  ∧ ∀ k, k ≠ "$type" → k ≠ "$index" → tagged type index item !! k = spread item !! k.
Proof.
  unfold tagged, get. repeat split.
  - by rewrite lookup_insert_eq.
  - by rewrite lookup_insert_ne, lookup_insert_eq.
  - intros k Ht Hi. by rewrite !lookup_insert_ne.
Qed.

Lemma mapM_result_total {A B} (f : A → result B) (l : list A) :
  (∀ x, x ∈ l → ∃ y, f x = Ok y) → ∃ ys, mapM f l = Ok ys.
Proof.
  induction l as [|x l IH]; intros H; simpl; [by eexists|].
  destruct (H x) as [y ->]; [left|].
  destruct IH as [ys ->]; [intros z Hz; apply H; by right|].
  simpl. by eexists.
Qed.

Lemma findM_total {A} (p : A → result bool) (l : list A) :
  (∀ x, x ∈ l → ∃ b, p x = Ok b) → ∃ r, findM p l = Ok r.
Proof.
  induction l as [|x l IH]; intros H; simpl; [by eexists|].
  destruct (H x) as [b ->]; [left|]. simpl.
  destruct b; [by eexists|]. apply IH. intros z Hz. apply H. by right.
Qed.

(** What [displayItems] returns holds the items of the merged list. *)
Lemma displayItems_Permutation (st : State) (info : Relation) (items : list Item) :
  relation st = Some info → mergedItems st info = Ok items →
  ∃ shown, displayItems st = Ok shown ∧ shown ≡ₚ items.
Proof.
  intros Hrel Hitems. unfold displayItems. rewrite Hrel, Hitems. cbn [mbind result_bind].
  destruct (truthy_field _) as [sf|]; [|by eexists].
  destruct (_ && _); [by eexists|].
  eexists. split; [done|]. apply sort_Permutation.
Qed.

(** For a relation of type o2m the display does not throw as long as no
    entry of the update list is [null]. *)
Lemma displayItems_o2m_total (st : State) (r : RelationO2M) :
  relation st = Some (O2M r) →
  Forall (fun edit => edit ≠ VNull) (c_update (_value st)) →
  ∃ shown, displayItems st = Ok shown.
Proof.
  intros Hrel Hupd.
  assert (∃ items, mergedItems st (O2M r) = Ok items) as [items Hitems].
  { unfold mergedItems.
    destruct (mapM_result_total (displayFetched st (targetPKField (O2M r))) (fetchedItems st))
      as [records ->].
    { intros item _. rewrite displayFetched_Ok by done. by eexists. }
    destruct (mapM_result_total (displaySelected st (O2M r)) (selected st)) as [sel ->].
    { intros item _. unfold displaySelected.
      destruct (findM_total (is_display_of (O2M r) item) (fetchedSelectItems st))
        as [[e|] ->]; [intros x _; by eexists | by eexists | by eexists]. }
    unfold createdItems. rewrite Hrel. cbn [mbind result_bind]. by eexists. }
  destruct (displayItems_Permutation st _ items Hrel Hitems) as (shown & Hs & _).
  by exists shown.
Qed.

(** ** Removing *)

Lemma strict_eq_key (v : any) : is_key v → strict_eq v v = true.
Proof.
  intros [[s ->]|[z ->]]; simpl.
  - by apply bool_decide_eq_true.
  - apply Z.eqb_refl.
Qed.

Lemma splice1_last {A} (l : list A) (x : A) :
  splice1 (VNumber (Int (Z.of_nat (length l)))) (l ++ [x]) = l.
Proof.
  unfold splice1, relative_index. simpl. rewrite length_app. simpl.
  destruct (Z.ltb_spec (Z.of_nat (length l)) 0); [lia|].
  rewrite Z.min_l by lia. rewrite Nat2Z.id.
  rewrite take_app_length, drop_ge; [by rewrite app_nil_r|].
  rewrite length_app. simpl. lia.
Qed.

Lemma ChangesItem_eta (c : ChangesItem) :
  {| c_create := c_create c; c_update := c_update c; c_delete := c_delete c |} = c.
Proof. by destruct c. Qed.

Lemma remove_single (st : State) (info : Relation) (item : Item)
    (f : ChangesItem → ChangesItem) :
  relation st = Some info →
  remove_one (targetPKField info) item st = change f st →
  ∃ st', remove [item] st = Done () st'
         ∧ _value st' = f (_value st)
         ∧ relation st' = relation st.
Proof.
  intros Hrel Hone. unfold remove. rewrite Hrel. cbn [for_of].
  assert ((remove_one (targetPKField info) item ≫= fun _ => mret ()) st
          = Done () (set_value (RawChanges (f (_value st))) st)) as Hloop.
  { unfold mbind, action_bind. by rewrite Hone. }
  rewrite (bind_Done _ _ _ _ _ Hloop).
  destruct (updateValue_Done (set_value (RawChanges (f (_value st))) st))
    as (st' & Hu & Hv & Hr & _).
  exists st'. split; [done|]. split; [by rewrite Hv | by rewrite Hr].
Qed.

(** C10. Take a fetched item as the server delivers it (not tagged, its
    primary key a string or a number), with no pending edit and no pending
    delete.  Removing it appends its primary key to the delete list; the
    record then displayed for it is tagged [$type = 'deleted'], with
    [$index] the position of the key in the delete list; removing that
    record takes the key out again, and the changes are as they were
    before the first call. *)
Theorem remove_twice_restores (st : State) (info : Relation) (item : Item) :
  relation st = Some info →
  let pk := targetPKField info in
  is_key (get item pk) →
  item !! "$type" = None →
  Forall (fun edit => edit ≠ VNull) (c_update (_value st)) →
  findIndex (edit_matches pk item) (c_update (_value st)) = None →
  findIndex (delete_matches pk item) (c_delete (_value st)) = None →
  ∃ st1 record st2,
    displayFetched st pk item = Ok item
    ∧ remove [item] st = Done () st1
    ∧ _value st1 = set_delete (push (get item pk)) (_value st)
    ∧ displayFetched st1 pk item = Ok record
    ∧ get record "$type" = VString "deleted"
    ∧ get record "$index" = VNumber (Int (Z.of_nat (length (c_delete (_value st)))))
    ∧ (item !! "$edits" = None → get record "$edits" = VUndefined)
    ∧ remove [record] st1 = Done () st2
    ∧ _value st2 = _value st.
Proof.
  intros Hrel pk Hkey Htype Hupd Hedit Hdel.
  destruct (remove_single st info item (set_delete (push (get item pk))) Hrel)
    as (st1 & Hrem1 & Hv1 & Hrel1).
  { unfold remove_one, get. by rewrite Htype. }
  set (d := length (c_delete (_value st))).
  set (record := mergeObject item (deleted_tags d)).
  assert (displayFetched st1 pk item = Ok record) as Hrecord.
  { rewrite displayFetched_Ok; rewrite Hv1; simpl; [|done].
    rewrite Hedit. unfold push.
    rewrite (findIndex_app_last (delete_matches pk item)); [done| |].
    - by apply findIndex_None.
    - by apply strict_eq_key. }
  destruct (deleted_tags_lookup d item) as (Hrt & Hri & Hrk). fold record in Hrt, Hri, Hrk.
  destruct (remove_single st1 info record
              (set_delete (splice1 (VNumber (Int (Z.of_nat d))))))
    as (st2 & Hrem2 & Hv2 & _).
  { congruence. }
  { unfold remove_one. by rewrite Hrt, Hri. }
  exists st1, record, st2.
  split; [|split; [exact Hrem1|split; [exact Hv1|split; [exact Hrecord|
    split; [exact Hrt|split; [exact Hri|split; [|split; [exact Hrem2|]]]]]]]].
  - rewrite displayFetched_Ok by exact Hupd. cbv zeta.
    fold pk. rewrite Hedit, Hdel. reflexivity.
  - intros He. unfold get. rewrite Hrk by discriminate. rewrite He. reflexivity.
  - rewrite Hv2, Hv1. unfold set_delete, push. cbn [c_create c_update c_delete]. subst d.
    rewrite splice1_last. apply ChangesItem_eta.
Qed.

Lemma remove_twice_restores_witness :
  ∃ st1 record st2,
    remove [Examples.book7] Examples.author = Done () st1
    ∧ c_delete (_value st1) = [Examples.num 7]
    ∧ displayFetched st1 "id" Examples.book7 = Ok record
    ∧ get record "$type" = VString "deleted"
    ∧ remove [record] st1 = Done () st2
    ∧ _value st2 = _value Examples.author.
Proof.
  destruct (remove_twice_restores Examples.author Examples.books Examples.book7 eq_refl)
    as (st1 & record & st2 & _ & H1 & Hv1 & Hr & Ht & _ & _ & H2 & Hv2).
  - right. by exists 7.
  - reflexivity.
  - constructor.
  - reflexivity.
  - reflexivity.
  - exists st1, record, st2. repeat split; try done. by rewrite Hv1.
Defined.

(** C10 fails for a fetched item whose primary key is in the delete list
    already: the key is appended a second time, the record displayed
    carries the position of its first occurrence, and removing the record
    takes that one out, which leaves the keys in another order than
    before the first call. *)
Lemma remove_twice_duplicate_key :
  ∃ st1 record st2,
    findIndex (edit_matches "id" Examples.book7) (c_update (_value Examples.author_removing))
    = None
    ∧ c_delete (_value Examples.author_removing) = [Examples.num 7; Examples.num 8]
    ∧ remove [Examples.book7] Examples.author_removing = Done () st1
    ∧ c_delete (_value st1) = [Examples.num 7; Examples.num 8; Examples.num 7]
    ∧ displayFetched st1 "id" Examples.book7 = Ok record
    ∧ get record "$type" = VString "deleted"
    ∧ get record "$index" = Examples.num 0
    ∧ get record "$edits" = VUndefined
    ∧ remove [record] st1 = Done () st2
    ∧ c_delete (_value st2) = [Examples.num 8; Examples.num 7]
    ∧ c_delete (_value st2) ≠ c_delete (_value Examples.author_removing).
Proof.
  exists (set_value
            (RawChanges {| c_create := []; c_update := [];
                           c_delete := [Examples.num 7; Examples.num 8; Examples.num 7] |})
            Examples.author),
    (mergeObject Examples.book7 (deleted_tags 0)),
    (set_value
       (RawChanges {| c_create := []; c_update := [];
                      c_delete := [Examples.num 8; Examples.num 7] |})
       Examples.author).
  split; [reflexivity|]. split; [reflexivity|]. split; [reflexivity|].
  split; [reflexivity|]. split; [reflexivity|]. split; [reflexivity|].
  split; [reflexivity|]. split; [reflexivity|]. split; [reflexivity|].
  split; [reflexivity|]. discriminate.
Qed.

(** ** Failing requests *)


Lemma get_request_reported (api : Api) (collection : string) (params : State → Params)
    (st : State) :
  match get_request api collection params st with
  | Done _ s => s = st
  | Raised e s => s = st ∧ api {| r_collection := collection; r_params := params st |} = Throw e
  end.
Proof. unfold get_request, read. by destruct (api _). Qed.








(** With a server that answers, nothing is reported and the count is the
    one the server gave. *)
Example updateFetchedItems_online :
  ∃ st',
    updateFetchedItems Examples.online Examples.author = Done () st'
    ∧ loading st' = false
    ∧ reported st' = []
    ∧ existingItemCount st' = Int 2
    ∧ existingSortMax st' = Examples.num 5.
Proof. eexists. split; [vm_compute; reflexivity|]. repeat split. Qed.


(** ** A display worked out *)

(** Author 1 has the books 7 and 8.  With an edit of book 7, the removal
    of book 8 and a new book pending, the display holds book 8 tagged as
    deleted, book 7 merged with its edit and tagged as updated, and the new
    book tagged as created, in the order of the sort field. *)
Example displayItems_author_edited :
  displayItems Examples.author_edited
  = Ok [ {[ "id" := Examples.num 8; "sort" := Examples.num 1;
            "$type" := VString "deleted"; "$index" := Examples.num 0 ]};
         {[ "id" := Examples.num 7; "sort" := Examples.num 2;
            "title" := VString "Emma";
            "$type" := VString "updated"; "$index" := Examples.num 0;
            "$edits" := Examples.num 0 ]};
         {[ "title" := VString "Persuasion"; "sort" := Examples.num 3;
            "$type" := VString "created"; "$index" := Examples.num 0 ]} ].
Proof. vm_compute. reflexivity. Qed.

(** * Further properties of the composable *)

(** ** What [updateValue] does *)

Lemma updateValue_has_changes (st : State) :
  has_changes (_value st) →
  updateValue st = Done () (set_value (RawChanges (_value st)) st).
Proof.
  intros H. unfold updateValue. rewrite !_value_set_value. unfold cloneDeep.
  destruct (_value st) as [c u d]. simpl in *.
  destruct c; [|reflexivity]. destruct u; [|reflexivity]. destruct d; [|reflexivity].
  destruct H as [H|[H|H]]; by destruct H.
Qed.

Lemma updateValue_no_changes (st : State) :
  ¬ has_changes (_value st) →
  ∃ st', updateValue st = Done () st'
         ∧ was_reset st'
         ∧ relation st' = relation st ∧ itemId st' = itemId st
         ∧ previewQuery st' = previewQuery st
         ∧ existingSortMax st' = existingSortMax st
         ∧ fetchedSelectItems st' = fetchedSelectItems st
         ∧ loading st' = loading st ∧ reported st' = reported st.
Proof.
  intros H. unfold updateValue. rewrite !_value_set_value. unfold cloneDeep.
  destruct (_value st) as [c u d]. unfold has_changes in H. simpl in *.
  destruct c; [|exfalso; apply H; left; discriminate].
  destruct u; [|exfalso; apply H; right; left; discriminate].
  destruct d; [|exfalso; apply H; right; right; discriminate].
  simpl. eexists. split; [reflexivity|]. unfold was_reset. simpl. repeat split.
Qed.

Lemma has_changes_dec (c : ChangesItem) : has_changes c ∨ ¬ has_changes c.
Proof.
  unfold has_changes. destruct c as [[|] [|] [|]]; simpl;
    try (left; first [left; discriminate | right; left; discriminate
                     | right; right; discriminate]).
  right. intros [H|[H|H]]; by apply H.
Qed.

(** After [updateValue] the [value] ref holds a changes object with a
    pending change, or the composable was reset. *)
Lemma updateValue_outcome (st : State) :
  ∃ st', updateValue st = Done () st'
         ∧ _value st' = _value st
         ∧ relation st' = relation st ∧ itemId st' = itemId st
         ∧ ((has_changes (_value st) ∧ st' = set_value (RawChanges (_value st)) st)
            ∨ (¬ has_changes (_value st) ∧ was_reset st')).
Proof.
  destruct (has_changes_dec (_value st)) as [H|H].
  - exists (set_value (RawChanges (_value st)) st).
    split; [by apply updateValue_has_changes|]. repeat split; try done. by left.
  - destruct (updateValue_no_changes st H) as (st' & Hu & Hr & Hrel & Hid & _).
    exists st'. split; [done|]. split.
    + destruct (updateValue_Done st) as (st2 & Hu2 & Hv & _). congruence.
    + repeat split; try done. by right.
Qed.

Lemma for_of_single {A} (body : A → action ()) (x : A) (st : State) :
  for_of [x] body st
  = match body x st with
    | Done _ st' => Done () st'
    | Raised e st' => Raised e st'
    end.
Proof. simpl. unfold mbind, action_bind. by destruct (body x st) as [[]|]. Qed.

Lemma same_except_value_refl (st : State) : same_except_value st st.
Proof. by repeat split. Qed.

Lemma same_except_value_set (st st' : State) (v : RawValue) :
  same_except_value st st' → same_except_value st (set_value v st').
Proof. intros H. exact H. Qed.

Lemma same_except_value_eq (st st' : State) :
  same_except_value st st' → st' = set_value (value st') st.
Proof.
  intros (H1 & H2 & H3 & H4 & H5 & H6 & H7 & H8 & H9).
  destruct st, st'. simpl in *. unfold set_value. simpl. congruence.
Qed.

Lemma create_body_same (item : Item) (st0 st : State) :
  same_except_value st0 st →
  same_except_value st0
    (final_state
       ((create_entry item ≫= fun entry => change (set_create (push (VObject entry)))) st)).
Proof.
  intros H. unfold mbind, action_bind.
  by destruct (create_entry_inv item st) as [[source ->]|[e ->]].
Qed.

Lemma update_one_same (item : Item) (st0 st : State) :
  same_except_value st0 st → same_except_value st0 (final_state (update_one item st)).
Proof.
  intros H. unfold update_one.
  repeat match goal with
         | |- context [if ?b then _ else _] => destruct b
         end; exact H.
Qed.

Lemma remove_one_same (pkField : string) (item : Item) (st0 st : State) :
  same_except_value st0 st →
  same_except_value st0 (final_state (remove_one pkField item st)).
Proof.
  intros H. unfold remove_one.
  repeat match goal with
         | |- context [if ?b then _ else _] => destruct b
         end; exact H.
Qed.

(** An action whose loop completes with a pending change stores the
    changes and touches nothing else. *)
Lemma loop_then_updateValue (m : action ()) (st st1 : State) :
  m st = Done () st1 → same_except_value st st1 → has_changes (_value st1) →
  (m ≫= fun _ => updateValue) st = Done () (set_value (RawChanges (_value st1)) st).
Proof.
  intros Hm Hsame Hch. rewrite (bind_Done _ _ _ _ _ Hm).
  rewrite updateValue_has_changes by done. f_equal.
  rewrite (same_except_value_eq _ _ Hsame) at 2. reflexivity.
Qed.

Lemma totalSortMax_inputs (st : State) (field : string) :
  truthy_field (sortField (relation st)) = Some field →
  Forall is_object (c_create (_value st)) →
  totalSortMax st = Ok (getSortMax (sort_inputs st field)).
Proof.
  intros Hf Hobj. unfold totalSortMax, sort_inputs. rewrite Hf.
  rewrite (mapM_result_pure _ (fun v => get (spread v) field)).
  - cbn [mbind result_bind]. destruct (is_o2m (relation st)); [done|].
    by rewrite app_nil_r.
  - intros v Hv. eapply Forall_forall in Hobj as [o ->]; [|done]. done.
Qed.

Lemma next_sort_value (max : any) :
  number_or_null max →
  ∃ n, js_add (js_or max (VNumber (Int 0))) (VNumber (Int 1)) = VNumber (Int n)
       ∧ (max = VNull → n = 1)
       ∧ (∀ m, max = VNumber (Int m) → m < n ∧ (n = 1 ∨ n = m + 1)).
Proof.
  intros [->|[m ->]].
  - exists 1. split; [reflexivity|]. split; [done|]. intros m [=].
  - destruct (Z.eq_dec m 0) as [->|Hm].
    + exists 1. split; [reflexivity|]. split; [done|]. intros m [= <-]. lia.
    + exists (m + 1). unfold js_or. simpl.
      destruct (Z.eqb_spec m 0); [done|]. simpl.
      split; [reflexivity|]. split; [done|]. intros m' [= <-]. lia.
Qed.

Lemma safe_or_null_number (v : any) : safe_or_null v → number_or_null v.
Proof. intros [->|(z & -> & _)]; [by left | right; by exists z]. Qed.

Lemma create_single (item entry : Item) (st : State) :
  create_entry item st = Done entry st →
  create [item] st
  = Done () (set_value (RawChanges (set_create (push (VObject entry)) (_value st))) st).
Proof.
  intros He. unfold create.
  rewrite (loop_then_updateValue _ st
             (set_value (RawChanges (set_create (push (VObject entry)) (_value st))) st));
    [reflexivity | | |].
  - rewrite for_of_single. by rewrite (bind_Done _ _ _ _ _ He).
  - apply same_except_value_set, same_except_value_refl.
  - left. rewrite _value_set_value. simpl. unfold push. by destruct (c_create (_value st)).
Qed.

(** X1. [create] called with one item without a sort value gives it the
    sort value [(totalSortMax || 0) + 1].  The sort values known being
    safe integers or [null], this is an integer the language computes
    exactly, above each of them, and 1 when there is none; the cleaned item
    is appended to the create list and nothing else changes.  An item that
    has a sort value, or any item when no sort field is configured, is
    stored cleaned and otherwise as it is. *)
Theorem create_sort_value (st : State) (item : Item) :
  (∀ field,
     truthy_field (sortField (relation st)) = Some field →
     plain_field field →
     Forall is_object (c_create (_value st)) →
     Forall safe_or_null (sort_inputs st field) →
     isNil (get item field) = true →
     ∃ n,
       create [item] st
       = Done ()
           (set_value
              (RawChanges
                 (set_create (push (VObject (cleanItem (<[field := VNumber (Int n)]> item))))
                    (_value st)))
              st)
       ∧ get (cleanItem (<[field := VNumber (Int n)]> item)) field = VNumber (Int n)
       ∧ - 2 ^ 53 < n <= 2 ^ 53
       ∧ (∀ z, VNumber (Int z) ∈ sort_inputs st field → z < n)
       ∧ (Forall (fun v => v = VNull) (sort_inputs st field) → n = 1))
  ∧ (match truthy_field (sortField (relation st)) with
     | Some field => isNil (get item field) = false
     | None => True
     end →
     create [item] st
     = Done ()
         (set_value (RawChanges (set_create (push (VObject (cleanItem item))) (_value st))) st)).
Proof.
  split.
  - intros field Hf Hplain Hobj Hsafe Hnil.
    assert (Forall number_or_null (sort_inputs st field)) as Hnum.
    { eapply Forall_impl; [exact Hsafe|]. apply safe_or_null_number. }
    destruct (getSortMax_typed _ Hnum) as (Hnull & Hmax & Hn).
    destruct (next_sort_value _ Hn) as (n & Hadd & Hn1 & Hlt).
    exists n. split; [|split; [|split; [|split]]].
    + apply create_single. unfold create_entry.
      rewrite Hf, Hnil, (totalSortMax_inputs st field Hf Hobj), Hadd. reflexivity.
    + rewrite get_cleanItem by done. apply get_insert_eq.
    + destruct Hn as [Hn|[m Hm]].
      * rewrite (Hn1 Hn). lia.
      * destruct (Hmax m Hm) as [Hin _]. destruct (Hlt m Hm) as [Hmn Hnm].
        assert (safe_integer m) as Hs.
        { rewrite Forall_forall in Hsafe.
          destruct (Hsafe _ Hin) as [Hnull'|(m' & Heq & Hs)]; [discriminate Hnull'|].
          injection Heq as <-. exact Hs. }
        unfold safe_integer in Hs. lia.
    + intros z Hz. destruct Hn as [Hn|[m Hm]].
      * apply Hnull in Hn. eapply Forall_forall in Hn; [|exact Hz]. discriminate Hn.
      * destruct (Hmax m Hm) as [_ Hub]. specialize (Hub z Hz).
        destruct (Hlt m Hm) as [Hmn _]. lia.
    + intros Hall. apply Hn1. by apply Hnull.
  - intros H. apply create_single. unfold create_entry.
    destruct (truthy_field (sortField (relation st))) as [field|]; [|reflexivity].
    by rewrite H.
Qed.

Lemma create_sort_value_witness :
  (∃ n,
     create [ {[ "title" := VString "Persuasion" ]} ] Examples.author
     = Done ()
         (set_value
            (RawChanges
               {| c_create := [VObject {[ "title" := VString "Persuasion";
                                          "sort" := VNumber (Int n) ]}];
                  c_update := []; c_delete := [] |})
            Examples.author)
     ∧ 5 < n)
  ∧ create [ {[ "title" := VString "Emma"; "sort" := Examples.num 2 ]} ] Examples.author
    = Done ()
        (set_value
           (RawChanges
              {| c_create := [VObject {[ "title" := VString "Emma";
                                         "sort" := Examples.num 2 ]}];
                 c_update := []; c_delete := [] |})
           Examples.author).
Proof.
  split.
  - destruct (create_sort_value Examples.author {[ "title" := VString "Persuasion" ]})
      as [H _].
    destruct (H "sort" eq_refl eq_refl) as (n & Hc & _ & _ & Hlt & _).
    + constructor.
    + apply Forall_cons_2; [|apply Forall_nil_2].
      right. exists 5. split; [reflexivity|]. split; reflexivity.
    + reflexivity.
    + exists n. split.
      * rewrite Hc. reflexivity.
      * apply Hlt. unfold sort_inputs. cbn. apply elem_of_cons. by left.
  - destruct (create_sort_value Examples.author
                {[ "title" := VString "Emma"; "sort" := Examples.num 2 ]}) as [_ H].
    rewrite H; [|reflexivity]. vm_compute. reflexivity.
Defined.

Lemma totalItemCount_frame (st st' : State) (k : nat) :
  relation st' = relation st →
  existingItemCount st' = existingItemCount st →
  c_update (_value st') = c_update (_value st) →
  length (c_create (_value st')) = (length (c_create (_value st)) + k)%nat →
  totalItemCount st' = num_add (totalItemCount st) (Int (Z.of_nat k)).
Proof.
  intros Hrel Hcount Hupd Hlen. unfold totalItemCount. rewrite Hrel, Hcount, Hlen.
  destruct (is_o2m (relation st)) eqn:Ho2m.
  - assert (selected st' = selected st) as ->.
    { unfold selected, isItemSelected. rewrite Hrel, Ho2m. by rewrite Hupd. }
    destruct (existingItemCount st); simpl; [done|]. f_equal. lia.
  - destruct (existingItemCount st); simpl; [done|]. f_equal. lia.
Qed.

Lemma create_loop_same (items : list Item) (st : State) :
  same_except_value st
    (final_state
       (for_of items
          (fun item => entry ← create_entry item;
                       change (set_create (push (VObject entry)))) st)).
Proof.
  apply (for_of_invariant (same_except_value st)); [|apply same_except_value_refl].
  intros item s Hs. by apply create_body_same.
Qed.

(** X2. Creating items raises [totalItemCount] by their
    number (the entries of the create list being objects, so that the call
    completes).  With no item and no pending change the call resets the
    composable instead, and the count of the existing items with it. *)
Theorem totalItemCount_create (st : State) (items : list Item) :
  Forall is_object (c_create (_value st)) →
  (items ≠ [] →
   ∃ st', create items st = Done () st'
          ∧ totalItemCount st'
            = num_add (totalItemCount st) (Int (Z.of_nat (length items))))
  ∧ (items = [] → ¬ has_changes (_value st) →
     ∃ st', create items st = Done () st' ∧ was_reset st' ∧ totalItemCount st' = Int 0).
Proof.
  intros Hobj. split.
  - intros Hne.
    destruct (create_loop_Done items st Hobj) as (entries & st1 & Hloop & Hv1 & Hall).
    pose proof (create_loop_same items st) as Hsame. rewrite Hloop in Hsame.
    cbn [final_state] in Hsame.
    assert (length entries = length items) as Hlen by (symmetry; by eapply Forall2_length).
    assert (has_changes (_value st1)) as Hch.
    { left. rewrite Hv1. simpl. destruct items, entries; try done.
      by destruct (c_create (_value st)). }
    eexists. split.
    { unfold create. by apply loop_then_updateValue. }
    destruct Hsame as (_ & Hrel & _ & _ & _ & Hcount & _).
    apply totalItemCount_frame; try done.
    + rewrite _value_set_value, Hv1. reflexivity.
    + rewrite _value_set_value, Hv1. simpl. rewrite length_app, length_map. lia.
  - intros -> Hno. unfold create. cbn [for_of].
    destruct (updateValue_no_changes st Hno) as (st' & Hu & Hr & Hrel & _).
    exists st'. split; [exact Hu|]. split; [exact Hr|].
    destruct Hr as (Hval & Hcount & _). unfold totalItemCount, selected, _value.
    rewrite Hval, Hcount.
    destruct (strict_eq (itemId st') (VString "+")); destruct (relation st') as [[]|]; reflexivity.
Qed.

Lemma totalItemCount_create_witness :
  ∃ st',
    create [ {[ "title" := VString "Persuasion" ]}; {[ "title" := VString "Emma" ]} ]
      Examples.author_selected = Done () st'
    ∧ totalItemCount st' = Int 5.
Proof.
  destruct (totalItemCount_create Examples.author_selected
              [ {[ "title" := VString "Persuasion" ]}; {[ "title" := VString "Emma" ]} ])
    as [H _]; [apply Forall_nil_2|].
  destruct (H ltac:(discriminate)) as (st' & Hc & Ht).
  exists st'. split; [exact Hc|]. rewrite Ht. reflexivity.
Defined.

Lemma filterM_pure {A} (p : A → result bool) (q : A → bool) (l : list A) :
  (∀ x, x ∈ l → p x = Ok (q x)) →
  filterM p l = Ok (base.filter (fun x => q x = true) l).
Proof.
  induction l as [|a l IH]; intros H; simpl; [done|].
  rewrite (H a) by left. cbn [mbind result_bind].
  rewrite IH by (intros x Hx; apply H; by right). cbn [mbind result_bind].
  rewrite filter_cons. destruct (q a); by case_decide.
Qed.

Lemma get_tagged (type : string) (index : nat) (v : any) (k : string) :
  plain_field k → get (tagged type index v) k = get (spread v) k.
Proof.
  intros Hk. destruct (plain_field_ne k Hk) as [Ht Hi].
  destruct (tagged_lookup type index v) as (_ & _ & H). unfold get. by rewrite H.
Qed.

Lemma filter_imap_split {A B} (f : nat → A → B) (P : B → Prop) `{!∀ x, Decision (P x)}
    (q : A → bool) (l : list A) :
  (∀ i x, P (f i x) ↔ q x = false) →
  (length (base.filter P (imap f l)) + length (base.filter (fun x => q x = true) l)
   = length l)%nat.
Proof.
  revert f. induction l as [|a l IH]; intros f Hf; [done|].
  cbn [imap]. rewrite !filter_cons.
  specialize (IH (f ∘ S) (fun i x => Hf (S i) x)).
  pose proof (Hf 0%nat a) as H0.
  destruct (q a) eqn:Hq.
  - rewrite (decide_False (P := P (f 0%nat a))) by (intros HP; by apply H0 in HP).
    rewrite decide_True by done. simpl. lia.
  - rewrite (decide_True (P := P (f 0%nat a))) by by apply H0.
    rewrite decide_False by done. simpl. lia.
Qed.

(** X3. For a relation of type m2m or m2a whose reverse junction
    field is a plain field, the entries of the create list (objects) are
    split between [selected] and [createdItems]: an entry that has a value
    under the reverse junction field is listed, tagged, by [selected], any
    other entry by [createdItems], and none by both. *)
Theorem selected_createdItems_partition (st : State) (info : Relation) :
  relation st = Some info →
  is_o2m (relation st) = false →
  plain_field (reverseJunctionField info) →
  Forall is_object (c_create (_value st)) →
  let entries := c_create (_value st) in
  let unselected v := is_undefined (get (spread v) (reverseJunctionField info)) in
  createdItems st = Ok (base.filter (fun v => unselected v = true) entries)
  ∧ selected st
    = base.filter (fun record : Item =>
                     is_undefined (get record (reverseJunctionField info)) = false)
        (imap (tagged "created") entries)
  ∧ (length (selected st) + length (base.filter (fun v => unselected v = true) entries)
     = length entries)%nat
  ∧ ∀ record, record ∈ selected st →
      ∃ i entry, entries !! i = Some entry ∧ record = tagged "created" i entry
                 ∧ unselected entry = false.
Proof.
  intros Hrel Ho2m Hplain Hobj entries unselected.
  assert (selected st
          = base.filter (fun record : Item =>
                           is_undefined (get record (reverseJunctionField info)) = false)
              (imap (tagged "created") entries)) as Hsel.
  { unfold selected. rewrite Ho2m, Hrel. apply list_filter_iff. intros record.
    unfold isItemSelected. rewrite Hrel. by destruct (is_undefined _). }
  split; [|split; [exact Hsel|split]].
  - unfold createdItems. rewrite Hrel.
    assert (filterM
              (fun item => v ← prop item (reverseJunctionField info); Ok (is_undefined v))
              entries
            = Ok (base.filter (fun v => unselected v = true) entries)) as Hf.
    { apply filterM_pure. intros v Hv. eapply Forall_forall in Hobj as [o ->]; [|done]. done. }
    destruct info; [by rewrite Hrel in Ho2m | exact Hf | exact Hf].
  - rewrite Hsel. apply filter_imap_split. intros i v.
    rewrite get_tagged by done. done.
  - intros record. rewrite Hsel. intros [Hund Hin]%list_elem_of_filter.
    apply elem_of_lookup_imap in Hin as (i & entry & -> & Hentry).
    exists i, entry. repeat split; try done. by rewrite get_tagged in Hund.
Qed.

Lemma selected_createdItems_partition_witness :
  ∃ st',
    select [Examples.num 4] None Examples.article = Done () st'
    ∧ length (selected st') = 1%nat
    ∧ createdItems st' = Ok [].
Proof.
  assert (∃ st', select [Examples.num 4] None Examples.article = Done () st'
                 ∧ relation st' = Some Examples.tags
                 ∧ ∃ sel : Item, c_create (_value st') = [VObject sel]
                     ∧ is_undefined (get sel "articles_id") = false) as (st' & Hs & Hr & sel & Hc & Hu).
  { eexists. split; [vm_compute; reflexivity|]. split; [reflexivity|].
    eexists. split; [reflexivity|]. reflexivity. }
  exists st'. split; [exact Hs|].
  destruct (selected_createdItems_partition st' Examples.tags Hr) as (Hcreated & _ & Hlen & _).
  - by rewrite Hr.
  - reflexivity.
  - rewrite Hc. repeat constructor. by eexists.
  - rewrite Hc in Hcreated, Hlen. rewrite filter_cons in Hcreated, Hlen.
    simpl in Hcreated, Hlen. rewrite Hu in Hcreated, Hlen.
    rewrite decide_False in Hcreated, Hlen by discriminate.
    split; [|exact Hcreated]. simpl in Hlen. lia.
Defined.

Lemma cleanItem_tagged (type : string) (index : nat) (v : any) :
  cleanItem (tagged type index v) = cleanItem (spread v).
Proof.
  apply map_eq. intros k. rewrite !cleanItem_lookup.
  destruct (String.prefix "$" k) eqn:Hk; [done|].
  destruct (plain_field_ne k Hk) as [Ht Hi].
  by destruct (tagged_lookup type index v) as (_ & _ & ->).
Qed.

Lemma cleanItem_dollar_free_id (o : Item) : dollar_free (VObject o) → cleanItem o = o.
Proof.
  intros Hfree. apply map_eq. intros k. rewrite cleanItem_lookup.
  destruct (String.prefix "$" k) eqn:Hk; [|done]. symmetry. by eapply Hfree.
Qed.

Lemma array_set_index (j : nat) (x : any) (l : list any) :
  Z.of_nat j < max_index →
  array_set (VNumber (Int (Z.of_nat j))) x l
  = if Nat.ltb j (length l) then <[j := x]> l
    else l ++ replicate (j - length l) VUndefined ++ [x].
Proof.
  intros Hj. unfold array_set, array_index.
  rewrite bool_decide_eq_true_2 by lia. by rewrite Nat2Z.id.
Qed.

Lemma update_single (st : State) (record : Item) (f : ChangesItem → ChangesItem) :
  is_Some (relation st) →
  update_one record st = change f st →
  ∃ st', update [record] st = Done () st' ∧ _value st' = f (_value st).
Proof.
  intros [info Hrel] Hone. unfold update. rewrite Hrel.
  assert (for_of [record] update_one st
          = Done () (set_value (RawChanges (f (_value st))) st)) as Hloop.
  { rewrite for_of_single, Hone. reflexivity. }
  rewrite (bind_Done _ _ _ _ _ Hloop).
  destruct (updateValue_Done (set_value (RawChanges (f (_value st))) st))
    as (st' & Hu & Hv & _).
  exists st'. split; [exact Hu|]. by rewrite Hv.
Qed.

(** X4. [update] called with a record tagged as created,
    with [$index] the array index [j], writes the cleaned record at
    position [j] of the create list: inside the list it replaces the entry
    there, past its end the list grows up to [j], the positions in between
    holding [undefined]; with a record tagged as updated it does the same
    on the update list.  The other lists are left alone. *)
Theorem update_tagged_record (st : State) (record : Item) (j : nat) :
  is_Some (relation st) →
  get record "$index" = VNumber (Int (Z.of_nat j)) →
  Z.of_nat j < max_index →
  let written (l : list any) :=
    if Nat.ltb j (length l) then <[j := VObject (cleanItem record)]> l
    else l ++ replicate (j - length l) VUndefined ++ [VObject (cleanItem record)] in
  (get record "$type" = VString "created" →
   ∃ st', update [record] st = Done () st'
          ∧ _value st' = set_create written (_value st))
  ∧ (get record "$type" = VString "updated" →
     ∃ st', update [record] st = Done () st'
            ∧ _value st' = set_update written (_value st)).
Proof.
  intros Hrel Hindex Hj written. split; intros Htype.
  - apply update_single; [exact Hrel|].
    unfold update_one. rewrite Htype, Hindex. simpl.
    rewrite !change_Done. unfold set_create. cbn [c_create c_update c_delete].
    rewrite array_set_index by done. reflexivity.
  - apply update_single; [exact Hrel|].
    unfold update_one. rewrite Htype, Hindex. simpl.
    rewrite !change_Done. unfold set_update. cbn [c_create c_update c_delete].
    rewrite array_set_index by done. reflexivity.
Qed.

Lemma update_tagged_record_witness :
  ∃ st',
    update [ {[ "title" := VString "Sanditon"; "$type" := VString "created";
                "$index" := Examples.num 2 ]} ] Examples.author_edited = Done () st'
    ∧ c_create (_value st')
      = [ VObject {[ "title" := VString "Persuasion"; "sort" := Examples.num 3 ]};
          VUndefined;
          VObject {[ "title" := VString "Sanditon" ]} ].
Proof.
  destruct (update_tagged_record Examples.author_edited
              {[ "title" := VString "Sanditon"; "$type" := VString "created";
                 "$index" := Examples.num 2 ]} 2) as [H _].
  - by eexists.
  - reflexivity.
  - reflexivity.
  - destruct (H eq_refl) as (st' & Hu & Hv). exists st'. split; [exact Hu|].
    rewrite Hv. vm_compute. reflexivity.
Defined.

(** X5. [cleanItem] takes off the tags a record carries: cleaning the
    tagged copy of an entry gives the cleaned entry, which is the entry
    itself when it carries no [$] key.  So handing back to [update],
    unchanged, a record tagged with the position of its entry in the create
    list or in the update list leaves the changes as they are.  The
    records [selected] lists are tagged so: each of them can be handed back
    to [update] without a change (the entries of the list they are taken
    from being objects without [$] keys). *)
Theorem tagged_cleanItem_round_trip (st : State) :
  (∀ type j o, cleanItem (tagged type j (VObject o)) = cleanItem o)
  ∧ (∀ j o,
       dollar_free (VObject o) → is_Some (relation st) → Z.of_nat j < max_index →
       (c_create (_value st) !! j = Some (VObject o) →
        ∃ st', update [tagged "created" j (VObject o)] st = Done () st'
               ∧ _value st' = _value st)
       ∧ (c_update (_value st) !! j = Some (VObject o) →
          ∃ st', update [tagged "updated" j (VObject o)] st = Done () st'
                 ∧ _value st' = _value st))
  ∧ (∀ info record,
       relation st = Some info →
       let entries :=
         if is_o2m (relation st) then c_update (_value st) else c_create (_value st) in
       Forall is_object entries →
       Forall dollar_free entries →
       Z.of_nat (length entries) < max_index →
       record ∈ selected st →
       ∃ st', update [record] st = Done () st' ∧ _value st' = _value st).
Proof.
  assert (∀ j o,
            dollar_free (VObject o) → is_Some (relation st) → Z.of_nat j < max_index →
            (c_create (_value st) !! j = Some (VObject o) →
             ∃ st', update [tagged "created" j (VObject o)] st = Done () st'
                    ∧ _value st' = _value st)
            ∧ (c_update (_value st) !! j = Some (VObject o) →
               ∃ st', update [tagged "updated" j (VObject o)] st = Done () st'
                      ∧ _value st' = _value st)) as Hposition.
  { intros j o Hfree Hrel Hj.
    assert (∀ l : list any, l !! j = Some (VObject o) →
              array_set (VNumber (Int (Z.of_nat j)))
                (VObject (cleanItem (tagged "created" j (VObject o)))) l = l
              ∧ array_set (VNumber (Int (Z.of_nat j)))
                  (VObject (cleanItem (tagged "updated" j (VObject o)))) l = l) as Hset.
    { intros l Hl. rewrite !array_set_index by done.
      rewrite !cleanItem_tagged. cbn [spread]. rewrite cleanItem_dollar_free_id by done.
      assert (j < length l)%nat as Hlt by by eapply lookup_lt_Some.
      apply Nat.ltb_lt in Hlt. rewrite Hlt. split; by apply list_insert_id. }
    destruct (tagged_lookup "created" j (VObject o)) as (Htc & Hic & _).
    destruct (tagged_lookup "updated" j (VObject o)) as (Htu & Hiu & _).
    split; intros Hentry.
    - destruct (update_single st (tagged "created" j (VObject o))
                  (set_create (array_set (VNumber (Int (Z.of_nat j)))
                     (VObject (cleanItem (tagged "created" j (VObject o)))))) Hrel)
        as (st' & Hu & Hv).
      { unfold update_one. rewrite Htc, Hic. reflexivity. }
      exists st'. split; [exact Hu|]. rewrite Hv. unfold set_create.
      rewrite (proj1 (Hset _ Hentry)). apply ChangesItem_eta.
    - destruct (update_single st (tagged "updated" j (VObject o))
                  (set_update (array_set (VNumber (Int (Z.of_nat j)))
                     (VObject (cleanItem (tagged "updated" j (VObject o)))))) Hrel)
        as (st' & Hu & Hv).
      { unfold update_one. rewrite Htu, Hiu. reflexivity. }
      exists st'. split; [exact Hu|]. rewrite Hv. unfold set_update.
      rewrite (proj2 (Hset _ Hentry)). apply ChangesItem_eta. }
  split; [intros type j o; apply cleanItem_tagged|]. split; [exact Hposition|].
  intros info record Hrel entries Hobj Hfree Hlen Hin.
  assert (∃ type j o,
            record = tagged type j (VObject o) ∧ entries !! j = Some (VObject o)
            ∧ type = (if is_o2m (relation st) then "updated" else "created"))
    as (type & j & o & -> & Hj & Htype).
  { revert Hin. unfold selected. rewrite Hrel. fold (relation st). subst entries.
    rewrite <- Hrel.
    destruct (is_o2m (relation st));
      intros [_ (j & v & -> & Hv)%elem_of_lookup_imap]%list_elem_of_filter;
      (assert (is_object v) as [o ->] by (eapply Forall_forall in Hobj; [done|];
                                          by eapply list_elem_of_lookup_2));
      by eexists _, j, o. }
  assert (dollar_free (VObject o)) as Ho.
  { eapply Forall_forall in Hfree; [done|]. by eapply list_elem_of_lookup_2. }
  assert (Z.of_nat j < max_index) as Hjm.
  { apply lookup_lt_Some in Hj. lia. }
  assert (is_Some (relation st)) as Hsome by (by rewrite Hrel).
  destruct (Hposition j o Ho Hsome Hjm) as [Hc Hu]. subst entries type.
  destruct (is_o2m (relation st)); [by apply Hu | by apply Hc].
Qed.

Lemma tagged_cleanItem_round_trip_witness :
  (∃ st',
     update [tagged "created" 0
               (VObject {[ "title" := VString "Persuasion"; "sort" := Examples.num 3 ]})]
       Examples.author_edited = Done () st'
     ∧ _value st' = _value Examples.author_edited)
  ∧ ∃ record st',
      selected Examples.author_selected = [record]
      ∧ update [record] Examples.author_selected = Done () st'
      ∧ _value st' = _value Examples.author_selected.
Proof.
  split.
  - destruct (tagged_cleanItem_round_trip Examples.author_edited) as (_ & H & _).
    destruct (H 0%nat {[ "title" := VString "Persuasion"; "sort" := Examples.num 3 ]})
      as [H' _].
    + intros o k [= <-] Hk.
      apply lookup_insert_None. split.
      * apply lookup_singleton_None. intros <-. discriminate Hk.
      * intros <-. discriminate Hk.
    + by eexists.
    + reflexivity.
    + apply H'. reflexivity.
  - destruct (tagged_cleanItem_round_trip Examples.author_selected) as (_ & _ & H).
    destruct (H Examples.books
                (tagged "updated" 0
                   (VObject {[ "author" := Examples.num 1; "id" := Examples.num 9 ]}))
                eq_refl) as (st' & Hu & Hv).
    + apply Forall_cons_2; [by eexists | apply Forall_nil_2].
    + apply Forall_cons_2; [|apply Forall_nil_2].
      intros o k [= <-] Hk.
      apply lookup_insert_None. split.
      * apply lookup_singleton_None. intros <-. discriminate Hk.
      * intros <-. discriminate Hk.
    + reflexivity.
    + apply elem_of_cons. by left.
    + eexists _, st'. split; [reflexivity|]. split; [exact Hu | exact Hv].
Defined.

Lemma splice1_nat {A} (j : nat) (l : list A) :
  splice1 (VNumber (Int (Z.of_nat j))) l = take j l ++ drop (S j) l.
Proof.
  unfold splice1, relative_index. simpl.
  destruct (Z.ltb_spec (Z.of_nat j) 0); [lia|].
  destruct (Nat.le_gt_cases j (length l)) as [Hle|Hgt].
  - rewrite Z.min_l by lia. by rewrite Nat2Z.id.
  - rewrite Z.min_r by lia. rewrite Nat2Z.id.
    rewrite !take_ge, !drop_ge by lia. reflexivity.
Qed.

(** What [remove] does with one record, given what its loop body does. *)
Lemma remove_one_then (st s1 : State) (info : Relation) (record : Item) :
  relation st = Some info →
  remove_one (targetPKField info) record st = Done () s1 →
  ∃ st', remove [record] st = Done () st' ∧ _value st' = _value s1.
Proof.
  intros Hrel Hone. unfold remove. rewrite Hrel.
  assert (for_of [record] (remove_one (targetPKField info)) st = Done () s1) as Hloop.
  { rewrite for_of_single, Hone. reflexivity. }
  rewrite (bind_Done _ _ _ _ _ Hloop).
  destruct (updateValue_Done s1) as (st' & Hu & Hv & _).
  by exists st'.
Qed.

(** X6. A record tagged as created is removed by taking the
    entry at its [$index] out of the create list.  When the page slice of
    the created items starts at the first of them and [createdItems] is
    the whole create list (as for a relation of type o2m), the record
    [displayItems] shows for the entry at position [j] carries that
    position, so removing it takes out exactly this entry. *)
Theorem remove_created_record (st : State) (info : Relation) :
  relation st = Some info →
  (∀ record j,
     get record "$type" = VString "created" →
     get record "$index" = VNumber (Int (Z.of_nat j)) →
     ∃ st', remove [record] st = Done () st'
            ∧ _value st'
              = set_create (fun l => take j l ++ drop (S j) l) (_value st))
  ∧ (∀ items m j entry,
       mergedItems st info = Ok items →
       createdItems st = Ok (c_create (_value st)) →
       getPage st (num_add (existingItemCount st) (Int (Z.of_nat (length (selected st)))))
         (c_create (_value st))
       = take m (c_create (_value st)) →
       (j < m)%nat →
       c_create (_value st) !! j = Some entry →
       tagged "created" j entry ∈ items
       ∧ ∃ st', remove [tagged "created" j entry] st = Done () st'
                ∧ _value st'
                  = set_create (fun l => take j l ++ drop (S j) l) (_value st)).
Proof.
  intros Hrel.
  assert (∀ record j,
            get record "$type" = VString "created" →
            get record "$index" = VNumber (Int (Z.of_nat j)) →
            ∃ st', remove [record] st = Done () st'
                   ∧ _value st'
                     = set_create (fun l => take j l ++ drop (S j) l) (_value st)) as Hremove.
  { intros record j Htype Hindex.
    destruct (remove_one_then st
                (set_value
                   (RawChanges (set_create (splice1 (VNumber (Int (Z.of_nat j)))) (_value st)))
                   st) info record Hrel) as (st' & Hr & Hv).
    { unfold remove_one. rewrite Htype, Hindex. reflexivity. }
    exists st'. split; [exact Hr|]. rewrite Hv, _value_set_value. unfold set_create.
    by rewrite splice1_nat. }
  split; [exact Hremove|].
  intros items m j entry Hitems Hcreated Hpage Hj Hentry. split.
  - apply mergedItems_inv in Hitems as (f & s & c & _ & _ & Hc & ->).
    rewrite Hcreated in Hc. injection Hc as <-. rewrite Hpage.
    apply elem_of_app. right. apply elem_of_app. right.
    apply elem_of_lookup_imap. exists j, entry. split; [reflexivity|].
    rewrite lookup_take_lt by done. exact Hentry.
  - destruct (tagged_lookup "created" j entry) as (Ht & Hi & _).
    by apply Hremove.
Qed.

Lemma remove_created_record_witness :
  let record :=
    tagged "created" 0
      (VObject {[ "title" := VString "Persuasion"; "sort" := Examples.num 3 ]}) in
  ∃ items st',
    mergedItems Examples.author_edited Examples.books = Ok items
    ∧ record ∈ items
    ∧ remove [record] Examples.author_edited = Done () st'
    ∧ c_create (_value st') = [].
Proof.
  intros record.
  destruct (remove_created_record Examples.author_edited Examples.books eq_refl) as [_ H].
  assert (∃ items, mergedItems Examples.author_edited Examples.books = Ok items) as [items Hm].
  { eexists. reflexivity. }
  destruct (H items 1%nat 0%nat
              (VObject {[ "title" := VString "Persuasion"; "sort" := Examples.num 3 ]})
              Hm eq_refl eq_refl ltac:(lia) eq_refl) as (Hin & st' & Hr & Hv).
  exists items, st'. split; [exact Hm|]. split; [exact Hin|]. split; [exact Hr|].
  rewrite Hv. reflexivity.
Defined.





Lemma strict_eq_string (v : any) (s : string) :
  strict_eq v (VString s) = true → v = VString s.
Proof.
  destruct v; simpl; try done. intros H. f_equal. by apply bool_decide_eq_true in H.
Qed.

(** X8. [localDelete] tells whether removing a record only
    undoes a pending change.  When it is [false], [remove] appends the
    primary key of the record to the delete list.  When it is [true] (and
    the record has its [$index]), [remove] appends nothing: the delete
    list is left as it is, or, for a record tagged as deleted, loses the
    entry at [$index]. *)
Theorem localDelete_remove (st : State) (info : Relation) (item : Item) :
  relation st = Some info →
  let pk := targetPKField info in
  (localDelete st item = false →
   ∃ st', remove [item] st = Done () st'
          ∧ _value st' = set_delete (push (get item pk)) (_value st))
  ∧ (localDelete st item = true →
     is_undefined (get item "$index") = false →
     ∃ st', remove [item] st = Done () st'
            ∧ (c_delete (_value st') = c_delete (_value st)
               ∨ (get item "$type" = VString "deleted"
                  ∧ c_delete (_value st')
                    = splice1 (get item "$index") (c_delete (_value st))))).
Proof.
  intros Hrel pk. unfold localDelete. split.
  - intros Hlocal.
    destruct (remove_one_then st
                (set_value (RawChanges (set_delete (push (get item pk)) (_value st))) st)
                info item Hrel) as (st' & Hr & Hv); [|by exists st'].
    unfold remove_one. fold pk.
    destruct (is_undefined (get item "$type")) eqn:Htype; [reflexivity|].
    destruct (is_undefined (get item "$index")); [reflexivity|].
    simpl in Hlocal. apply orb_false_elim in Hlocal as [Hupd Hsel].
    apply negb_false_iff, strict_eq_string in Hupd. rewrite Hupd, Hsel. reflexivity.
  - intros Hlocal Hindex.
    apply andb_true_iff in Hlocal as [Htype Hlocal]. apply negb_true_iff in Htype.
    assert (∃ s1, remove_one pk item st = Done () s1
                  ∧ (c_delete (_value s1) = c_delete (_value st)
                     ∨ (get item "$type" = VString "deleted"
                        ∧ c_delete (_value s1)
                          = splice1 (get item "$index") (c_delete (_value st)))))
      as (s1 & Hone & Hdel).
    { unfold remove_one. rewrite Htype, Hindex. cbn [orb].
      destruct (strict_eq (get item "$type") (VString "created")) eqn:Hc.
      { eexists. split; [reflexivity|]. by left. }
      destruct (strict_eq (get item "$type") (VString "updated")) eqn:Hu.
      { simpl in Hlocal. rewrite Hlocal. eexists. split; [reflexivity|]. by left. }
      destruct (strict_eq (get item "$type") (VString "deleted")) eqn:Hd.
      { apply strict_eq_string in Hd. eexists. split; [reflexivity|]. by right. }
      eexists. split; [reflexivity|]. by left. }
    destruct (remove_one_then st s1 info item Hrel Hone) as (st' & Hr & Hv).
    exists st'. split; [exact Hr|]. by rewrite Hv.
Qed.

Lemma localDelete_remove_witness :
  (∃ st', remove [Examples.book7] Examples.author = Done () st'
          ∧ c_delete (_value st') = [Examples.num 7])
  ∧ (∃ st',
       remove [tagged "created" 0
                 (VObject {[ "title" := VString "Persuasion"; "sort" := Examples.num 3 ]})]
         Examples.author_edited = Done () st'
       ∧ c_delete (_value st') = [Examples.num 8]).
Proof.
  split.
  - destruct (localDelete_remove Examples.author Examples.books Examples.book7 eq_refl)
      as [H _].
    destruct (H eq_refl) as (st' & Hr & Hv). exists st'. split; [exact Hr|].
    rewrite Hv. reflexivity.
  - destruct (localDelete_remove Examples.author_edited Examples.books
                (tagged "created" 0
                   (VObject {[ "title" := VString "Persuasion"; "sort" := Examples.num 3 ]}))
                eq_refl) as [_ H].
    destruct (H eq_refl eq_refl) as (st' & Hr & [Hd|[Ht _]]).
    + exists st'. split; [exact Hr | exact Hd].
    + discriminate Ht.
Defined.

Lemma run_updateValue (m : action ()) (st st' : State) :
  (m ≫= fun _ => updateValue) st = Done () st' →
  (∃ c, value st' = RawChanges c ∧ has_changes c) ∨ was_reset st'.
Proof.
  unfold mbind, action_bind. destruct (m st) as [[] s1|e s1]; [|done].
  destruct (updateValue_outcome s1) as (s2 & Hu & _ & _ & _ & [[Hch ->]|[_ Hr]]);
    rewrite Hu; intros [= <-].
  - left. by eexists.
  - by right.
Qed.

(** X9. An action that completes never leaves an empty
    changes object in the [value] ref: afterwards the ref holds changes with
    at least one entry, or the composable was reset ([value] is the empty
    array, or [undefined] for a new item, and the fetched items and their
    count are dropped).  Without a relation all actions but [create] leave
    the state alone. *)
Theorem actions_never_leave_empty_changes (call : Call) (st st' : State) :
  run call st = Done () st' →
  (∃ c, value st' = RawChanges c ∧ has_changes c)
  ∨ was_reset st'
  ∨ (relation st = None ∧ st' = st).
Proof.
  destruct call as [items|items|items|ids collection|]; simpl.
  - intros H. apply run_updateValue in H. tauto.
  - unfold update. destruct (relation st) as [info|]; [|intros [= <-]; tauto].
    intros H. apply run_updateValue in H. tauto.
  - unfold remove. destruct (relation st) as [info|]; [|intros [= <-]; tauto].
    intros H. apply run_updateValue in H. tauto.
  - unfold select. destruct (relation st) as [info|] eqn:Hrel; [|intros [= <-]; tauto].
    unfold mbind at 1, action_bind at 1, read.
    destruct (mapM _ ids) as [entries|e]; [|done].
    destruct (is_o2m (Some info)).
    + unfold update. rewrite Hrel. intros H. apply run_updateValue in H. tauto.
    + intros H. apply run_updateValue in H. tauto.
  - unfold clear. destruct (relation st) as [info|]; [|intros [= <-]; tauto].
    intros [= <-]. right. left. unfold was_reset. simpl. done.
Qed.

Lemma actions_never_leave_empty_changes_witness :
  ∃ st1 st2,
    remove [Examples.book7] Examples.author = Done () st1
    ∧ remove [mergeObject Examples.book7 (deleted_tags 0)] st1 = Done () st2
    ∧ fetchedItems st2 = [].
Proof.
  eexists _, _. split; [reflexivity|]. split; [reflexivity|].
  destruct (actions_never_leave_empty_changes
              (Remove [mergeObject Examples.book7 (deleted_tags 0)])
              (set_value
                 (RawChanges {| c_create := []; c_update := []; c_delete := [Examples.num 7] |})
                 Examples.author)
              (set_fetchedItems []
                 (set_existingItemCount (Int 0) (set_value (RawArray []) Examples.author)))
              eq_refl) as [(c & Hc & _)|[(_ & _ & Hf)|[Hr _]]].
  - discriminate Hc.
  - exact Hf.
  - discriminate Hr.
Defined.

Lemma getPage_nil {A} (st : State) (offset : number) : getPage st offset (@nil A) = [].
Proof.
  unfold getPage. destruct (limit (previewQuery st) =? -1); [done|].
  unfold slice. by rewrite drop_nil, take_nil.
Qed.

Lemma displayItems_nothing (st : State) (info : Relation) :
  relation st = Some info → fetchedItems st = [] → _value st = no_changes →
  displayItems st = Ok [].
Proof.
  intros Hrel Hf Hv.
  assert (selected st = []) as Hsel.
  { unfold selected. rewrite Hrel, Hv. by destruct (is_o2m (Some info)). }
  assert (createdItems st = Ok []) as Hc.
  { unfold createdItems. rewrite Hrel, Hv. by destruct info. }
  unfold displayItems, mergedItems. rewrite Hrel, Hf, Hsel, Hc. cbn - [getPage sort].
  rewrite getPage_nil. cbn.
  destruct (truthy_field _); [|done]. by destruct (_ && _).
Qed.

(** X10. With a relation, [clear] drops every pending change and
    resets the composable: nothing is displayed and the total count is
    zero until the items are fetched again.  The sort maximum of the
    existing items is kept. *)
Theorem clear_resets (st : State) (info : Relation) :
  relation st = Some info →
  ∃ st', clear st = Done () st'
         ∧ was_reset st'
         ∧ _value st' = no_changes
         ∧ displayItems st' = Ok []
         ∧ totalItemCount st' = Int 0
         ∧ existingSortMax st' = existingSortMax st
         ∧ relation st' = relation st.
Proof.
  intros Hrel. unfold clear. rewrite Hrel.
  eexists. split; [reflexivity|].
  assert (∀ s, _value
                 (set_fetchedItems []
                    (set_existingItemCount (Int 0)
                       (set_value
                          (if strict_eq (itemId s) (VString "+") then RawUndefined
                           else RawArray []) s))) = no_changes) as Hv.
  { intros s. unfold _value. simpl. by destruct (strict_eq (itemId s) (VString "+")). }
  split; [by repeat split|]. split; [apply Hv|]. split; [|split; [|by split]].
  - apply (displayItems_nothing _ info); [exact Hrel | reflexivity | apply Hv].
  - unfold totalItemCount, selected. cbn [relation set_fetchedItems set_existingItemCount
      set_value existingItemCount]. rewrite Hv, Hrel. by destruct (is_o2m (Some info)).
Qed.

Lemma clear_resets_witness :
  ∃ st', clear Examples.author_edited = Done () st'
         ∧ displayItems st' = Ok []
         ∧ value st' = RawArray [].
Proof.
  destruct (clear_resets Examples.author_edited Examples.books eq_refl)
    as (st' & Hc & (Hv & _) & _ & Hd & _).
  exists st'. split; [exact Hc|]. split; [exact Hd|]. rewrite Hv.
  replace (itemId st') with (Examples.num 1); [reflexivity|].
  injection Hc as <-. reflexivity.
Defined.

(** X11. As long as the relation is not known, nothing is
    displayed or selected and [update], [remove], [select] and [clear] do
    nothing; [create], which does not look at the relation, still stores
    the cleaned item. *)
Theorem without_relation (st : State) :
  relation st = None →
  displayItems st = Ok []
  ∧ selected st = []
  ∧ createdItems st = Ok []
  ∧ (∀ items, update items st = Done () st)
  ∧ (∀ items, remove items st = Done () st)
  ∧ (∀ ids collection, select ids collection st = Done () st)
  ∧ clear st = Done () st
  ∧ (∀ api, updateFetchedItems api st = Done () st)
  ∧ (∀ item,
       create [item] st
       = Done ()
           (set_value (RawChanges (set_create (push (VObject (cleanItem item))) (_value st)))
              st)).
Proof.
  intros Hrel. unfold displayItems, selected, createdItems, update, remove, select, clear,
    updateFetchedItems. rewrite Hrel. repeat split.
  intros item. apply create_single. unfold create_entry. by rewrite Hrel.
Qed.

Lemma without_relation_witness :
  let st := set_value RawUndefined
              {| value := RawUndefined; previewQuery := Examples.query; relation := None;
                 itemId := VString "+"; loading := false; fetchedItems := [];
                 existingItemCount := Int 0; existingSortMax := VNull;
                 fetchedSelectItems := []; reported := [] |} in
  select [Examples.num 1] None st = Done () st
  ∧ c_create (_value (final_state (create [ {[ "title" := VString "Emma" ]} ] st)))
    = [VObject {[ "title" := VString "Emma" ]}].
Proof.
  intros st. destruct (without_relation st eq_refl) as (_ & _ & _ & _ & _ & Hs & _ & _ & Hc).
  split; [apply Hs|]. rewrite Hc. reflexivity.
Defined.

Lemma getPage_Int {A} (st : State) (offset : Z) (items : list A) :
  limit (previewQuery st) ≠ -1 →
  let q := previewQuery st in
  let n := Z.of_nat (length items) in
  let s := Z.max 0 (Z.min ((page q - 1) * limit q - offset) n) in
  let e := Z.max 0 (Z.min (page q * limit q - offset) n) in
  getPage st (Int offset) items = take (Z.to_nat e - Z.to_nat s) (drop (Z.to_nat s) items).
Proof.
  intros Hl q n s e. rewrite getPage_window by done. apply page_part_bounds.
Qed.

(** X12. The slice [getPage] returns is a run of consecutive items
    of the list.  With a positive limit it holds at most [limit] items.
    With a limit that is not positive and not [-1], or with an offset that
    is not a number, it is empty. *)
Theorem getPage_size {A} (st : State) (offset : number) (items : list A) :
  let q := previewQuery st in
  (∃ s n, getPage st offset items = take n (drop s items))
  ∧ (0 < limit q → Z.of_nat (length (getPage st offset items)) <= limit q)
  ∧ (limit q <= 0 → limit q ≠ -1 → getPage st offset items = [])
  ∧ (limit q ≠ -1 → offset = NaN → getPage st offset items = []).
Proof.
  intros q.
  assert (limit q ≠ -1 → offset = NaN → getPage st offset items = []) as Hnan.
  { intros Hl ->. unfold getPage. fold q.
    destruct (Z.eqb_spec (limit q) (-1)); [done|].
    unfold slice, relative_index. cbn [num_sub clamp ToIntegerOrInfinity].
    rewrite Z.ltb_irrefl, Z.min_l by lia. reflexivity. }
  split; [|split; [|split; [|exact Hnan]]].
  - destruct (Z.eq_dec (limit q) (-1)) as [Hl|Hl].
    + exists 0%nat, (length items). unfold getPage. fold q. rewrite Hl. simpl.
      by rewrite take_ge.
    + destruct offset as [|offset].
      * exists 0%nat, 0%nat. by rewrite Hnan.
      * eexists _, _. by apply getPage_Int.
  - intros Hl. destruct offset as [|offset].
    + rewrite Hnan; [simpl; lia | lia | done].
    + rewrite getPage_Int by (fold q; lia). fold q.
      rewrite length_take, length_drop. lia.
  - intros Hl Hne. destruct offset as [|offset]; [by apply Hnan|].
    rewrite getPage_Int by done. fold q.
    replace (_ - _)%nat with 0%nat; [done|]. nia.
Qed.

Lemma getPage_size_witness :
  Z.of_nat (length (getPage Examples.author (Int 8) [1; 2; 3]%nat)) <= 10.
Proof.
  destruct (getPage_size Examples.author (Int 8) [1; 2; 3]%nat) as (_ & H & _).
  apply H. reflexivity.
Defined.

Lemma on_page_div (q : RelationQueryMultiple) (position : Z) :
  0 < limit q → on_page q position ↔ position `div` limit q + 1 = page q.
Proof.
  intros Hl. unfold on_page. split.
  - intros [H1 H2].
    assert (position `div` limit q = page q - 1); [|lia].
    symmetry. apply (Z.div_unique position (limit q) (page q - 1)
                       (position - (page q - 1) * limit q)); lia.
  - intros Hp. pose proof (Z.div_mod position (limit q) ltac:(lia)) as Hdm.
    pose proof (Z.mod_pos_bound position (limit q) Hl) as Hb. nia.
Qed.

(** X13. With a positive limit, the page an item falls on is
    fixed by its position in the whole list: [getPage] returns, in order,
    exactly the items whose position, the offset plus their index, divided
    by the limit gives the page number less one.  So every item is on one
    page and on no other. *)
Theorem getPage_by_position {A} (st : State) (offset : Z) (items : list A) :
  let q := previewQuery st in
  0 < limit q →
  getPage st (Int offset) items
  = (base.filter (fun ix : Z * A => ix.1 `div` limit q + 1 = page q)
       (imap (fun i x => (offset + Z.of_nat i, x)) items)).*2.
Proof.
  intros q Hl. rewrite getPage_window by (fold q; lia). unfold page_part. fold q.
  f_equal. apply list_filter_iff. intros [position x]. simpl. by apply on_page_div.
Qed.

Lemma getPage_by_position_witness :
  getPage Examples.author (Int 8) [1; 2; 3]%nat = [1; 2]%nat.
Proof.
  rewrite (getPage_by_position Examples.author 8 [1; 2; 3]%nat); [reflexivity|].
  reflexivity.
Defined.

Lemma updateFetchedItems_try (api : Api) (st : State) (info : Relation)
    (tc tpk rjf : string) (fields0 : list string) :
  relation st = Some info →
  truthy (itemId st) = true →
  strict_eq (itemId st) (VString "+") = false →
  fetch_target info (new_Set (fields (previewQuery st))) = Ok (tc, tpk, rjf, fields0) →
  updateFetchedItems api st
  = try_catch_finally (fetch_body api tc tpk rjf (requested_fields st fields0))
      unexpectedError (modify (set_loading false)) st.
Proof.
  intros Hrel Hid Hplus Htarget. unfold updateFetchedItems, requested_fields.
  destruct (relation st) as [info'|] eqn:Hr; [|discriminate Hrel].
  injection Hrel as ->. rewrite Hid, Hplus. cbn [negb orb]. by rewrite Htarget.
Qed.

Lemma integer_count_ToNumber (count : any) (n : Z) :
  integer_count count n → ToNumber count = Int n.
Proof. by intros [_ [->|(s & -> & _ & Hs)]]. Qed.

(** X14. For an item that exists, [updateFetchedItems] asks for the
    count of the related items, for the maximum of the sort field when one
    is configured, and for the page of items, in this order.  When the
    three answers arrive, the count being a safe integer given as a number
    or in decimal digits, it stores the count as a number, the maximum and
    the items, and the loading flag is [false] again; nothing is
    reported. *)
Theorem updateFetchedItems_success (api : Api) (st : State) (info : Relation)
    (tc tpk rjf : string) (fields0 : list string) (rows data : list Item)
    (count max : any) (n : Z) :
  relation st = Some info →
  truthy (itemId st) = true →
  strict_eq (itemId st) (VString "+") = false →
  fetch_target info (new_Set (fields (previewQuery st))) = Ok (tc, tpk, rjf, fields0) →
  api (count_request st tc tpk rjf) = Ok rows →
  first_aggregate "count" tpk rows = Ok count →
  integer_count count n →
  match truthy_field (sortField (relation st)) with
  | Some sortField =>
      ∃ rows', api (max_request st tc sortField rjf) = Ok rows'
               ∧ first_aggregate "max" sortField rows' = Ok max
  | None => max = existingSortMax st
  end →
  api (items_request st tc rjf (requested_fields st fields0)) = Ok data →
  updateFetchedItems api st
  = Done ()
      (set_loading false
         (set_fetchedItems data
            (set_existingSortMax max (set_existingItemCount (Int n) st)))).
Proof.
  intros Hrel Hid Hplus Htarget Hcount Hc Hn%integer_count_ToNumber Hmax Hitems.
  rewrite <- Hn.
  rewrite (updateFetchedItems_try api st info tc tpk rjf fields0) by done.
  unfold try_catch_finally, fetch_body, mbind, action_bind, modify at 1.
  unfold updateItemCount, mbind, action_bind, get_request, read, modify.
  change (api {| r_collection := tc; r_params := _ |})
    with (api (count_request st tc tpk rjf)) at 1.
  rewrite Hcount, Hc. unfold fetch_items. cbn [itemId set_existingItemCount set_loading].
  rewrite Hplus. cbn [negb]. unfold mbind, action_bind.
  cbn [relation set_existingItemCount set_loading] .
  destruct (truthy_field (sortField (relation st))) as [sf|] eqn:Hsf.
  - destruct Hmax as (rows' & Hm & Hfa).
    unfold updateSortMax, mbind, action_bind, get_request, read, modify.
    change (api {| r_collection := tc;
                   r_params := {| p_search := None; p_fields := None;
                                  p_filter := _; p_aggregate := Some (Max sf);
                                  p_page := None; p_limit := None |} |})
      with (api (max_request st tc sf rjf)).
    rewrite Hm, Hfa.
    change (api {| r_collection := tc; r_params := _ |})
      with (api (items_request st tc rjf (requested_fields st fields0))).
    rewrite Hitems. reflexivity.
  - subst max. unfold mret, action_ret, get_request, read, modify.
    change (api {| r_collection := tc; r_params := _ |})
      with (api (items_request st tc rjf (requested_fields st fields0))).
    rewrite Hitems. by destruct st.
Qed.

Lemma updateFetchedItems_success_witness :
  ∃ st',
    updateFetchedItems Examples.online Examples.author = Done () st'
    ∧ existingItemCount st' = Int 2
    ∧ existingSortMax st' = Examples.num 5
    ∧ loading st' = false.
Proof.
  eexists. split.
  - apply (updateFetchedItems_success Examples.online Examples.author Examples.books
             "books" "id" "author" ["title"; "id"]
             [ {[ "count" := VObject {[ "id" := Examples.num 2 ]};
                  "max" := VObject {[ "sort" := Examples.num 5 ]} ]} ]
             [ {[ "count" := VObject {[ "id" := Examples.num 2 ]};
                  "max" := VObject {[ "sort" := Examples.num 5 ]} ]} ]
             (Examples.num 2) (Examples.num 5) 2
             eq_refl eq_refl eq_refl eq_refl eq_refl eq_refl).
    + split; [split; reflexivity || discriminate | by left].
    + eexists. split; reflexivity.
    + reflexivity.
  - repeat split.
Defined.

(** X15. When the count cannot be had, because the request is
    rejected or the answer holds no count (an empty answer gives a
    [TypeError]), [updateFetchedItems] asks for nothing more: the error is
    reported, the loading flag is [false], and the items, the count and
    the maximum are those of before.  When the count, a safe integer given
    as a number or in decimal digits, and the maximum arrive and the
    request for the items is rejected, the new count and maximum are kept
    together with the old items. *)
Theorem updateFetchedItems_failure (api : Api) (st : State) (info : Relation)
    (tc tpk rjf : string) (fields0 : list string) (e : JsError) :
  relation st = Some info →
  truthy (itemId st) = true →
  strict_eq (itemId st) (VString "+") = false →
  fetch_target info (new_Set (fields (previewQuery st))) = Ok (tc, tpk, rjf, fields0) →
  (api (count_request st tc tpk rjf) = Throw e
   ∨ (∃ rows, api (count_request st tc tpk rjf) = Ok rows
              ∧ first_aggregate "count" tpk rows = Throw e) →
   updateFetchedItems api st = Done () (reported_and_idle e st))
  ∧ (api (count_request st tc tpk rjf) = Ok [] →
     updateFetchedItems api st = Done () (reported_and_idle TypeError st))
  ∧ (∀ rows count max n,
       api (count_request st tc tpk rjf) = Ok rows →
       first_aggregate "count" tpk rows = Ok count →
       integer_count count n →
       match truthy_field (sortField (relation st)) with
       | Some sortField =>
           ∃ rows', api (max_request st tc sortField rjf) = Ok rows'
                    ∧ first_aggregate "max" sortField rows' = Ok max
       | None => max = existingSortMax st
       end →
       api (items_request st tc rjf (requested_fields st fields0)) = Throw e →
       updateFetchedItems api st
       = Done ()
           (reported_and_idle e
              (set_existingSortMax max (set_existingItemCount (Int n) st)))).
Proof.
  intros Hrel Hid Hplus Htarget.
  assert (∀ e, api (count_request st tc tpk rjf) = Throw e
               ∨ (∃ rows, api (count_request st tc tpk rjf) = Ok rows
                          ∧ first_aggregate "count" tpk rows = Throw e) →
               updateFetchedItems api st = Done () (reported_and_idle e st)) as Hcount.
  { intros e' Hfail.
    rewrite (updateFetchedItems_try api st info tc tpk rjf fields0) by done.
    unfold try_catch_finally, fetch_body, mbind, action_bind, modify at 1.
    unfold updateItemCount, mbind, action_bind, get_request, read, modify.
    change (api {| r_collection := tc; r_params := _ |})
      with (api (count_request st tc tpk rjf)) at 1.
    destruct Hfail as [->|(rows & -> & ->)]; reflexivity. }
  split; [apply Hcount|]. split.
  - intros Hempty. apply Hcount. right. by exists [].
  - intros rows count max n Hc Hfa Hn%integer_count_ToNumber Hmax Hitems. rewrite <- Hn.
    rewrite (updateFetchedItems_try api st info tc tpk rjf fields0) by done.
    unfold try_catch_finally, fetch_body, mbind, action_bind, modify at 1.
    unfold updateItemCount, mbind, action_bind, get_request, read, modify.
    change (api {| r_collection := tc; r_params := _ |})
      with (api (count_request st tc tpk rjf)) at 1.
    rewrite Hc, Hfa. unfold fetch_items. cbn [itemId set_existingItemCount set_loading].
    rewrite Hplus. cbn [negb]. unfold mbind, action_bind.
    cbn [relation set_existingItemCount set_loading].
    destruct (truthy_field (sortField (relation st))) as [sf|] eqn:Hsf.
    + destruct Hmax as (rows' & Hm & Hfm).
      unfold updateSortMax, mbind, action_bind, get_request, read, modify.
      change (api {| r_collection := tc;
                     r_params := {| p_search := None; p_fields := None;
                                    p_filter := _; p_aggregate := Some (Max sf);
                                    p_page := None; p_limit := None |} |})
        with (api (max_request st tc sf rjf)).
      rewrite Hm, Hfm.
      change (api {| r_collection := tc; r_params := _ |})
        with (api (items_request st tc rjf (requested_fields st fields0))).
      rewrite Hitems. reflexivity.
    + subst max. unfold mret, action_ret, get_request, read, modify.
      change (api {| r_collection := tc; r_params := _ |})
        with (api (items_request st tc rjf (requested_fields st fields0))).
      rewrite Hitems. by destruct st.
Qed.

Lemma updateFetchedItems_failure_witness :
  let api : Api := fun request =>
    match p_aggregate (r_params request) with
    | Some _ =>
        Ok [ {[ "count" := VObject {[ "id" := VString "2" ]};
                "max" := VObject {[ "sort" := Examples.num 5 ]} ]} ]
    | None => Throw (RequestFailed "offline")
    end in
  updateFetchedItems (fun _ => Ok []) Examples.author
  = Done () (reported_and_idle TypeError Examples.author)
  ∧ updateFetchedItems api Examples.author
    = Done ()
        (reported_and_idle (RequestFailed "offline")
           (set_existingSortMax (Examples.num 5)
              (set_existingItemCount (Int 2) Examples.author))).
Proof.
  intros api. split.
  - destruct (updateFetchedItems_failure (fun _ => Ok []) Examples.author Examples.books
                "books" "id" "author" ["title"; "id"] TypeError
                eq_refl eq_refl eq_refl eq_refl) as (_ & H & _).
    apply H. reflexivity.
  - destruct (updateFetchedItems_failure api Examples.author Examples.books
                "books" "id" "author" ["title"; "id"] (RequestFailed "offline")
                eq_refl eq_refl eq_refl eq_refl) as (_ & _ & H).
    apply (H _ (VString "2") (Examples.num 5) 2 eq_refl eq_refl).
    + split; [split; [discriminate | reflexivity]|].
      right. exists "2". split; [reflexivity|]. split; [|reflexivity].
      split; [discriminate|]. apply Forall_cons_2; [by eexists | apply Forall_nil_2].
    + eexists. split; reflexivity.
    + reflexivity.
Defined.

(** X16. For an item that does not exist yet (its id is ['+']) or
    has no id, [updateFetchedItems] asks the server nothing: it drops the
    fetched items and their count and leaves the loading flag and the
    reported errors alone.  What is displayed then are the selected and the
    created items only. *)
Theorem updateFetchedItems_new_item (api : Api) (st : State) (info : Relation) :
  relation st = Some info →
  truthy (itemId st) = false ∨ itemId st = VString "+" →
  ∃ st', updateFetchedItems api st = Done () st'
         ∧ st' = set_fetchedItems [] (set_existingItemCount (Int 0) st)
         ∧ ∀ items, mergedItems st' info = Ok items →
             ∃ selectedOnPage created,
               mapM (displaySelected st' info) (selected st') = Ok selectedOnPage
               ∧ createdItems st' = Ok created
               ∧ items
                 = selectedOnPage
                     ++ imap (tagged "created")
                          (getPage st' (Int (Z.of_nat (length (selected st')))) created).
Proof.
  intros Hrel Hid. eexists. split; [|split; [reflexivity|]].
  - unfold updateFetchedItems. rewrite Hrel.
    destruct Hid as [->| ->]; [reflexivity|]. by rewrite orb_true_r.
  - intros items (f & s & c & Hf & Hs & Hc & ->)%mergedItems_inv.
    exists s, c. split; [exact Hs|]. split; [exact Hc|].
    cbn in Hf. injection Hf as <-. reflexivity.
Qed.

Lemma updateFetchedItems_new_item_witness :
  let st := set_value RawUndefined
              {| value := RawUndefined; previewQuery := Examples.query;
                 relation := Some Examples.books;
                 itemId := VString "+"; loading := false; fetchedItems := [Examples.book7];
                 existingItemCount := Int 1; existingSortMax := VNull;
                 fetchedSelectItems := []; reported := [] |} in
  ∃ st', updateFetchedItems Examples.offline st = Done () st'
         ∧ fetchedItems st' = [] ∧ reported st' = [].
Proof.
  intros st.
  destruct (updateFetchedItems_new_item Examples.offline st Examples.books eq_refl)
    as (st' & Hu & -> & _); [by right|].
  eexists. split; [exact Hu|]. split; reflexivity.
Defined.

Lemma elem_of_set_add (x y : string) (s : list string) :
  y ∈ set_add x s ↔ y = x ∨ y ∈ s.
Proof.
  unfold set_add. case_bool_decide as Hx.
  - split; [by right|]. by intros [->|?].
  - rewrite elem_of_app, list_elem_of_singleton. tauto.
Qed.

Lemma NoDup_set_add (x : string) (s : list string) : NoDup s → NoDup (set_add x s).
Proof.
  intros Hs. unfold set_add. case_bool_decide as Hx; [done|].
  apply NoDup_app. split; [done|]. split; [|apply NoDup_singleton].
  intros y Hy ->%list_elem_of_singleton. done.
Qed.

Lemma fold_set_add (names s : list string) :
  NoDup s →
  NoDup (fold_left (fun s x => set_add x s) names s)
  ∧ ∀ y, y ∈ fold_left (fun s x => set_add x s) names s ↔ y ∈ names ∨ y ∈ s.
Proof.
  revert s. induction names as [|x names IH]; intros s Hs; simpl.
  - split; [done|]. intros y. rewrite elem_of_nil. tauto.
  - destruct (IH (set_add x s) (NoDup_set_add x s Hs)) as [Hn Hin].
    split; [done|]. intros y. rewrite Hin, elem_of_set_add, elem_of_cons. tauto.
Qed.

Lemma new_Set_spec (l : list string) : NoDup (new_Set l) ∧ ∀ y, y ∈ new_Set l ↔ y ∈ l.
Proof.
  destruct (fold_set_add l [] (NoDup_nil_2)) as [Hn Hin]. split; [done|].
  intros y. unfold new_Set. rewrite Hin, elem_of_nil. tauto.
Qed.

Lemma mapM_result_elem {A B} (f : A → result B) (l : list A) (k : list B) (x : A) :
  mapM f l = Ok k → x ∈ l → ∃ y, y ∈ k ∧ f x = Ok y.
Proof.
  intros Hm (i & Hi)%list_elem_of_lookup.
  destruct (mapM_result_lookup f l k i x Hm Hi) as (y & Hy & Hf).
  exists y. split; [|done]. apply list_elem_of_lookup. by exists i.
Qed.

Lemma mapM_result_Throw {A B} (f : A → result B) (l : list A) (x : A) (e : JsError) :
  x ∈ l → (∀ y e', y ∈ l → f y = Throw e' → e' = e) → f x = Throw e → mapM f l = Throw e.
Proof.
  induction l as [|a l IH]; intros Hx Hall Hf; [by apply elem_of_nil in Hx|].
  simpl. destruct (f a) as [b|e'] eqn:Hfa; simpl.
  - apply elem_of_cons in Hx as [->|Hx]; [congruence|].
    rewrite IH; [done | done | | done]. intros y e'' Hy. apply Hall. by right.
  - f_equal. eapply Hall; [|done]. by left.
Qed.

(** X17. The fields [updateFetchedItems] asks for form a set: no
    field is asked twice, whatever the query lists.  They hold every field
    of the query, the primary key of the target collection, for a relation
    of type m2m the primary key of the related collection under the
    junction field, for a relation of type m2a the collection field, and
    the sort field when one is configured.  The switch fails, with a
    [TypeError], exactly for a relation of type m2a with an allowed
    collection whose primary key field is not known. *)
Theorem fetch_target_fields (info : Relation) (query_fields : list string) :
  (∀ tc tpk rjf fields,
     fetch_target info (new_Set query_fields) = Ok (tc, tpk, rjf, fields) →
     tpk = targetPKField info
     ∧ rjf = reverseJunctionField info
     ∧ NoDup fields
     ∧ tpk ∈ fields
     ∧ (∀ f, f ∈ query_fields → f ∈ fields)
     ∧ match info with
       | O2M _ => True
       | M2M r => m2m_junctionField r +:+ "." +:+ m2m_relatedPrimaryKeyField r ∈ fields
       | M2A r =>
           m2a_collectionField r ∈ fields
           ∧ ∀ c, c ∈ m2a_allowedCollections r →
               ∃ pk, m2a_relationPrimaryKeyFields r !! c = Some pk
                     ∧ m2a_junctionField r +:+ ":" +:+ c +:+ "." +:+ pk ∈ fields
       end)
  ∧ match info with
    | M2A r =>
        ((∃ c, c ∈ m2a_allowedCollections r ∧ m2a_relationPrimaryKeyFields r !! c = None) →
         fetch_target info (new_Set query_fields) = Throw TypeError)
        ∧ ((∀ c, c ∈ m2a_allowedCollections r →
              is_Some (m2a_relationPrimaryKeyFields r !! c)) →
           ∃ target, fetch_target info (new_Set query_fields) = Ok target)
    | _ => ∃ target, fetch_target info (new_Set query_fields) = Ok target
    end
  ∧ ∀ st fields,
      NoDup fields →
      NoDup (requested_fields st fields)
      ∧ (∀ f, f ∈ fields → f ∈ requested_fields st fields)
      ∧ ∀ sf, truthy_field (sortField (relation st)) = Some sf →
          sf ∈ requested_fields st fields.
Proof.
  destruct (new_Set_spec query_fields) as [Hnd Hin].
  split; [|split].
  - intros tc tpk rjf fields Ht. destruct info as [r|r|r]; simpl in Ht.
    + injection Ht as <- <- <- <-. repeat split; try done.
      * by apply NoDup_set_add.
      * apply elem_of_set_add. by left.
      * intros f Hf. apply elem_of_set_add. right. by apply Hin.
    + injection Ht as <- <- <- <-. repeat split; try done.
      * by apply NoDup_set_add, NoDup_set_add.
      * apply elem_of_set_add. right. apply elem_of_set_add. by left.
      * intros f Hf. apply elem_of_set_add. right. apply elem_of_set_add. right.
        by apply Hin.
      * apply elem_of_set_add. by left.
    + destruct (mapM _ (m2a_allowedCollections r)) as [names|e] eqn:Hnames; [|done].
      simpl in Ht. injection Ht as <- <- <- <-.
      destruct (fold_set_add names
                  (set_add (m2a_collectionField r)
                     (set_add (m2a_junctionPrimaryKeyField r) (new_Set query_fields))))
        as [Hn Hmem]; [by apply NoDup_set_add, NoDup_set_add|].
      repeat split; try done.
      * apply Hmem. right. apply elem_of_set_add. right. apply elem_of_set_add. by left.
      * intros f Hf. apply Hmem. right. apply elem_of_set_add. right.
        apply elem_of_set_add. right. by apply Hin.
      * apply Hmem. right. apply elem_of_set_add. by left.
      * intros c Hc. destruct (mapM_result_elem _ _ _ c Hnames Hc) as (name & Hname & Hf).
        unfold relationPrimaryKeyField in Hf. simpl in Hf.
        destruct (m2a_relationPrimaryKeyFields r !! c) as [pk|]; [|done].
        simpl in Hf. injection Hf as <-. exists pk. split; [done|]. apply Hmem. by left.
  - destruct info as [r|r|r]; [by eexists | by eexists |]. split.
    + intros (c & Hc & Hnone). simpl.
      rewrite (mapM_result_Throw _ _ c TypeError); [done | done | | ].
      * intros y e' _. unfold relationPrimaryKeyField. simpl.
        destruct (m2a_relationPrimaryKeyFields r !! y); simpl; [done|]. by intros [= <-].
      * unfold relationPrimaryKeyField. simpl. by rewrite Hnone.
    + intros Hknown. simpl.
      destruct (mapM_result_total
                  (fun collection =>
                     pkField ← relationPrimaryKeyField r (VString collection);
                     Ok (m2a_junctionField r +:+ ":" +:+ collection +:+ "." +:+ pkField))
                  (m2a_allowedCollections r)) as [names Hnames].
      * intros c Hc. destruct (Hknown c Hc) as [pk Hpk].
        unfold relationPrimaryKeyField. simpl. rewrite Hpk. by eexists.
      * rewrite Hnames. by eexists.
  - intros st fields Hfields. unfold requested_fields.
    destruct (truthy_field (sortField (relation st))) as [sf|].
    + split; [by apply NoDup_set_add|]. split.
      * intros f Hf. apply elem_of_set_add. by right.
      * intros sf' [= <-]. apply elem_of_set_add. by left.
    + split; [done|]. split; [done|]. intros sf [=].
Qed.

Lemma fetch_target_fields_witness :
  ∃ fields,
    fetch_target Examples.tags (new_Set ["title"; "id"; "title"])
    = Ok ("articles_tags", "id", "articles_id", fields)
    ∧ NoDup fields
    ∧ "tags_id.id" ∈ fields.
Proof.
  destruct (fetch_target_fields Examples.tags ["title"; "id"; "title"]) as (H & _ & _).
  eexists. split; [reflexivity|].
  destruct (H _ _ _ _ eq_refl) as (_ & _ & Hn & _ & _ & Hj). split; [exact Hn | exact Hj].
Defined.

Lemma findM_first {A} (p : A → result bool) (pre post : list A) (x : A) :
  (∀ y, y ∈ pre → p y = Ok false) → p x = Ok true →
  findM p (pre ++ x :: post) = Ok (Some x).
Proof.
  intros Hpre Hx. induction pre as [|a pre IH]; simpl.
  - by rewrite Hx.
  - rewrite (Hpre a) by left. simpl. apply IH. intros y Hy. apply Hpre. by right.
Qed.

Lemma findM_none {A} (p : A → result bool) (l : list A) :
  (∀ y, y ∈ l → p y = Ok false) → findM p l = Ok None.
Proof.
  intros Hl. induction l as [|a l IH]; simpl; [done|].
  rewrite (Hl a) by left. simpl. apply IH. intros y Hy. apply Hl. by right.
Qed.

Lemma merge_two (item edit : Item) :
  merge ∅ [VObject item; VObject edit] = mergeObject item edit.
Proof. unfold merge. simpl. by rewrite mergeObject_fresh. Qed.

Lemma selected_set_fetchedSelectItems (l : list Item) (st : State) :
  selected (set_fetchedSelectItems l st) = selected st.
Proof. reflexivity. Qed.

(** X18. For a relation of type o2m with selected items on the
    page, [loadSelectedDisplay] asks the related collection for the items
    whose primary key is among those of the selected items on the page,
    without a limit, and keeps the answer.  A selected item is then
    displayed merged with the first item of the answer that has its primary
    key, keeping each field the answer does not have (so its tags, when
    the answer has no [$] key); a selected item the answer does not hold
    is displayed as it is.  When the request is rejected the rejection
    leaves the call and the items kept before stay. *)
Theorem selected_display_o2m (api : Api) (st : State) (r : RelationO2M) :
  relation st = Some (O2M r) →
  selectedOnPage st ≠ [] →
  let pk := o2m_relatedPrimaryKeyField r in
  let request :=
    {| r_collection := o2m_relatedCollection r;
       r_params := in_keys pk (map (fun item : Item => get item pk) (selectedOnPage st)) |} in
  (∀ e, api request = Throw e → loadSelectedDisplay api st = Raised e st)
  ∧ (∀ data, api request = Ok data →
       let st' := set_fetchedSelectItems data st in
       loadSelectedDisplay api st = Done () st'
       ∧ selected st' = selected st
       ∧ ∀ item : Item,
           ((∀ d : Item, d ∈ data → strict_eq (get d pk) (get item pk) = false) →
            displaySelected st' (O2M r) item = Ok item)
           ∧ (∀ pre d post,
                data = pre ++ d :: post →
                (∀ d' : Item, d' ∈ pre → strict_eq (get d' pk) (get item pk) = false) →
                strict_eq (get d pk) (get item pk) = true →
                displaySelected st' (O2M r) item = Ok (mergeObject item d)
                ∧ ∀ k, d !! k = None → get (mergeObject item d) k = get item k)).
Proof.
  intros Hrel Hsel pk request.
  assert (is_empty (selectedOnPage st) = false) as Hne.
  { by destruct (selectedOnPage st). }
  split.
  - intros e He. unfold loadSelectedDisplay, loadSelectedDisplayO2M. rewrite Hrel, Hne.
    unfold mbind, action_bind, get_request, read. fold pk. fold request. by rewrite He.
  - intros data Hdata st'. split; [|split; [reflexivity|]].
    + unfold loadSelectedDisplay, loadSelectedDisplayO2M. rewrite Hrel, Hne.
      unfold mbind, action_bind, get_request, read. fold pk. fold request.
      by rewrite Hdata.
    + intros item. split.
      * intros Hnone. unfold displaySelected. cbn [fetchedSelectItems st' set_fetchedSelectItems].
        rewrite findM_none; [done|]. intros d Hd. simpl. f_equal. by apply Hnone.
      * intros pre d post -> Hpre Hd. split; [|intros k Hk; by apply get_mergeObject_absent].
        unfold displaySelected. cbn [fetchedSelectItems st' set_fetchedSelectItems].
        rewrite (findM_first _ pre post d).
        -- cbn [mbind result_bind]. by rewrite merge_two.
        -- intros d' Hd'. simpl. f_equal. by apply Hpre.
        -- simpl. f_equal. exact Hd.
Qed.

Lemma selected_display_o2m_witness :
  let api : Api := fun _ => Ok [ {[ "id" := Examples.num 9; "title" := VString "Emma" ]} ] in
  ∃ st' item,
    loadSelectedDisplay api Examples.author_selected = Done () st'
    ∧ selected st' = [item]
    ∧ displaySelected st' Examples.books item
      = Ok (mergeObject item {[ "id" := Examples.num 9; "title" := VString "Emma" ]}).
Proof.
  intros api.
  destruct (selected_display_o2m api Examples.author_selected _ eq_refl) as [_ H].
  { discriminate. }
  destruct (H _ eq_refl) as (Hl & Hs & Hd).
  eexists _, _. split; [exact Hl|]. split; [reflexivity|].
  destruct (Hd (tagged "updated" 0
                  (VObject {[ "author" := Examples.num 1; "id" := Examples.num 9 ]})))
    as [_ Hm].
  destruct (Hm [] {[ "id" := Examples.num 9; "title" := VString "Emma" ]} [] eq_refl)
    as [Hr _].
  - intros d' Hd'. by apply elem_of_nil in Hd'.
  - reflexivity.
  - exact Hr.
Defined.

Lemma get_object_lookup (item o : Item) (k : string) :
  get item k = VObject o → item !! k = Some (VObject o).
Proof.
  unfold get. destruct (item !! k) as [v|]; simpl; intros H.
  - by rewrite H.
  - discriminate H.
Qed.

Lemma get_singleton (k : string) (v : any) : get ({[ k := v ]} : Item) k = v.
Proof. unfold get. by rewrite lookup_singleton_eq. Qed.

(** X19. For a relation of type m2m with selected items on the
    page, [loadSelectedDisplay] asks the related collection for the items
    whose primary key is among the keys the selected items on the page
    nest under the junction field, and keeps each item of the answer
    wrapped under the junction field.  A selected item is then displayed
    with the first item of the answer that has its nested key merged into
    what it holds under the junction field.  When a selected item on the
    page holds [undefined] or [null] under the junction field the call
    throws a [TypeError] before any request is made. *)
Theorem selected_display_m2m (api : Api) (st : State) (r : RelationM2M) :
  relation st = Some (M2M r) →
  selectedOnPage st ≠ [] →
  let jf := m2m_junctionField r in
  let pk := m2m_relatedPrimaryKeyField r in
  ((∃ item : Item, item ∈ selectedOnPage st ∧ isNil (get item jf) = true) →
   loadSelectedDisplay api st = Raised TypeError st)
  ∧ (∀ keys data,
       mapM (fun item : Item => prop (get item jf) pk) (selectedOnPage st) = Ok keys →
       api {| r_collection := m2m_relatedCollection r; r_params := in_keys pk keys |}
       = Ok data →
       let st' :=
         set_fetchedSelectItems (map (fun d : Item => {[ jf := VObject d ]}) data) st in
       loadSelectedDisplay api st = Done () st'
       ∧ ∀ (item nested : Item) pre d post,
           get item jf = VObject nested →
           data = pre ++ d :: post →
           (∀ d' : Item, d' ∈ pre → strict_eq (get d' pk) (get nested pk) = false) →
           strict_eq (get d pk) (get nested pk) = true →
           displaySelected st' (M2M r) item = Ok (mergeObject item {[ jf := VObject d ]})
           ∧ get (mergeObject item {[ jf := VObject d ]}) jf = VObject (mergeObject nested d)).
Proof.
  intros Hrel Hsel jf pk.
  assert (is_empty (selectedOnPage st) = false) as Hne.
  { by destruct (selectedOnPage st). }
  split.
  - intros (item & Hin & Hnil).
    unfold loadSelectedDisplay, loadSelectedDisplayM2M. rewrite Hrel, Hne.
    apply bind_Raised, read_Throw. fold jf pk.
    apply (mapM_result_Throw _ _ item); [exact Hin | |].
    + intros y e' _. destruct (get y jf); simpl; try done; by intros [= <-].
    + unfold isNil in Hnil. destruct (get item jf); try done.
  - intros keys data Hkeys Hdata st'. split.
    + unfold loadSelectedDisplay, loadSelectedDisplayM2M. rewrite Hrel, Hne.
      fold jf pk.
      assert (read (fun st0 => mapM (fun item : Item => prop (get item jf) pk)
                                 (selectedOnPage st0)) st = Done keys st) as Hread.
      { by apply read_Ok. }
      rewrite (bind_Done _ _ _ _ _ Hread).
      unfold mbind, action_bind, get_request, read. by rewrite Hdata.
    + intros item nested pre d post Hnested -> Hpre Hd. split.
      * unfold displaySelected. cbn [fetchedSelectItems st' set_fetchedSelectItems].
        rewrite map_app, map_cons.
        rewrite (findM_first _ (map (fun d : Item => {[ jf := VObject d ]}) pre)).
        -- cbn [mbind result_bind]. by rewrite merge_two.
        -- intros e (d' & -> & Hd')%list_elem_of_fmap. unfold is_display_of.
           fold jf pk. rewrite get_singleton, Hnested. cbn.
           f_equal. by apply Hpre.
        -- unfold is_display_of. fold jf pk. rewrite get_singleton, Hnested. cbn.
           f_equal. exact Hd.
      * unfold get at 1. rewrite lookup_mergeObject, lookup_singleton_eq.
        rewrite (get_object_lookup _ _ _ Hnested). reflexivity.
Qed.

Lemma selected_display_m2m_witness :
  let api : Api := fun _ => Ok [ {[ "id" := Examples.num 4; "name" := VString "novel" ]} ] in
  let item : Item :=
    tagged "created" 0
      (VObject {[ "articles_id" := Examples.num 1;
                  "tags_id" := VObject {[ "id" := Examples.num 4 ]} ]}) in
  let st := set_value
              (RawChanges
                 {| c_create := [VObject {[ "articles_id" := Examples.num 1;
                                            "tags_id" := VObject {[ "id" := Examples.num 4 ]} ]}];
                    c_update := []; c_delete := [] |})
              Examples.article in
  ∃ st',
    loadSelectedDisplay api st = Done () st'
    ∧ item ∈ selected st'
    ∧ ∃ record, displaySelected st' Examples.tags item = Ok record
        ∧ get record "tags_id"
          = VObject {[ "id" := Examples.num 4; "name" := VString "novel" ]}.
Proof.
  intros api item st.
  destruct (selected_display_m2m api st _ eq_refl) as [_ H].
  { discriminate. }
  destruct (H [Examples.num 4] _ eq_refl eq_refl) as (Hl & Hd).
  eexists. split; [exact Hl|]. split.
  { vm_compute selected. apply elem_of_cons. by left. }
  destruct (Hd item {[ "id" := Examples.num 4 ]} []
              {[ "id" := Examples.num 4; "name" := VString "novel" ]} [] eq_refl eq_refl)
    as [Hr Hg].
  - intros d' Hd'. by apply elem_of_nil in Hd'.
  - reflexivity.
  - eexists. split; [exact Hr|]. etransitivity; [exact Hg|]. reflexivity.
Defined.

Lemma mapM_result_elem_inv {A B} (f : A → result B) (l : list A) (k : list B) (y : B) :
  mapM f l = Ok k → y ∈ k → ∃ x, x ∈ l ∧ f x = Ok y.
Proof.
  revert k. induction l as [|a l IH]; intros k; simpl.
  - intros [= <-] Hy. by apply elem_of_nil in Hy.
  - destruct (f a) as [b|e] eqn:Hfa; simpl; [|done].
    destruct (mapM f l) as [k'|e]; simpl; [|done].
    intros [= <-] [->|Hy]%elem_of_cons.
    + exists a. split; [by left | done].
    + destruct (IH k' eq_refl Hy) as (x & Hx & Hf). exists x. split; [by right | done].
Qed.

Lemma group_add_keys (k : string) (x : Item) (acc : list (string * list Item)) (c : string) :
  c ∈ (group_add k x acc).*1 ↔ c = k ∨ c ∈ acc.*1.
Proof.
  induction acc as [|[c' items] acc IH]; simpl.
  - rewrite elem_of_cons, elem_of_nil. tauto.
  - case_bool_decide as Hc; simpl.
    + subst c'. rewrite elem_of_cons. tauto.
    + rewrite !elem_of_cons, IH. tauto.
Qed.

Lemma group_add_NoDup (k : string) (x : Item) (acc : list (string * list Item)) :
  NoDup acc.*1 → NoDup (group_add k x acc).*1.
Proof.
  induction acc as [|[c' items] acc IH]; simpl; intros Hn.
  - apply NoDup_singleton.
  - apply NoDup_cons in Hn as [Hc' Hn].
    case_bool_decide as Hc; simpl; apply NoDup_cons.
    + done.
    + split; [|by apply IH]. rewrite group_add_keys. intros [->|H]; done.
Qed.

Lemma of_collection_snoc (cf c : string) (l : list Item) (x : Item) :
  of_collection cf c (l ++ [x])
  = of_collection cf c l ++ (if bool_decide (collection_of cf x = c) then [x] else []).
Proof.
  unfold of_collection. rewrite filter_app. f_equal.
  case_bool_decide.
  - by rewrite filter_cons_True.
  - by rewrite filter_cons_False.
Qed.

Lemma group_add_groups (cf : string) (l : list Item) (x : Item)
    (acc : list (string * list Item)) :
  NoDup acc.*1 →
  Forall (fun g => g.2 = of_collection cf g.1 l ∧ g.2 ≠ []) acc →
  (collection_of cf x ∉ acc.*1 → of_collection cf (collection_of cf x) l = []) →
  Forall (fun g => g.2 = of_collection cf g.1 (l ++ [x]) ∧ g.2 ≠ [])
    (group_add (collection_of cf x) x acc).
Proof.
  induction acc as [|[c items] acc IH]; simpl; intros Hn Hall Hnew.
  - apply Forall_cons. split; [|done]. simpl. split; [|done].
    rewrite of_collection_snoc, Hnew by apply not_elem_of_nil.
    by rewrite bool_decide_eq_true_2.
  - apply NoDup_cons in Hn as [Hc Hn]. apply Forall_cons in Hall as [[Hitems Hne] Hall].
    simpl in Hitems, Hne.
    case_bool_decide as Hcx.
    + subst c. apply Forall_cons. split.
      * simpl. split; [|by destruct items].
        by rewrite of_collection_snoc, bool_decide_eq_true_2, Hitems.
      * apply Forall_forall. intros [c' items'] Hg.
        rewrite Forall_forall in Hall. destruct (Hall _ Hg) as [H1 H2]. simpl in *.
        split; [|done]. rewrite of_collection_snoc, bool_decide_eq_false_2, app_nil_r; [done|].
        intros <-. apply Hc. apply list_elem_of_fmap. by exists (collection_of cf x, items').
    + apply Forall_cons. split.
      * simpl. split; [|done].
        rewrite of_collection_snoc, bool_decide_eq_false_2, app_nil_r; [done|].
        congruence.
      * apply IH; [done | done |]. intros Hnot. apply Hnew.
        rewrite not_elem_of_cons. split; [congruence | done].
Qed.

Lemma selectGrouped_snoc (cf : string) (l : list Item) (x : Item) :
  selectGrouped cf (l ++ [x]) = group_add (collection_of cf x) x (selectGrouped cf l).
Proof. unfold selectGrouped. by rewrite fold_left_app. Qed.

Lemma selectGrouped_inv (cf : string) (l : list Item) :
  NoDup (selectGrouped cf l).*1
  ∧ Forall (fun g => g.2 = of_collection cf g.1 l ∧ g.2 ≠ []) (selectGrouped cf l)
  ∧ ∀ y, y ∈ l → collection_of cf y ∈ (selectGrouped cf l).*1.
Proof.
  induction l as [|x l (Hn & Hall & Hin)] using rev_ind.
  - split; [apply NoDup_nil_2|]. split; [apply Forall_nil_2|].
    intros y Hy. by apply elem_of_nil in Hy.
  - rewrite selectGrouped_snoc. split; [by apply group_add_NoDup|]. split.
    + apply group_add_groups; [done | done |]. intros Hnot.
      destruct (of_collection cf (collection_of cf x) l) as [|y rest] eqn:Hf; [done|].
      assert (y ∈ of_collection cf (collection_of cf x) l) as Hy.
      { rewrite Hf. by left. }
      apply list_elem_of_filter in Hy as [Heq Hy]. destruct Hnot.
      rewrite <- Heq. by apply Hin.
    + intros y [Hy| ->%list_elem_of_singleton]%elem_of_app; apply group_add_keys.
      * right. by apply Hin.
      * by left.
Qed.

Lemma selectGrouped_member (collectionField : string) (items : list Item)
    (collection : string) (group : list Item) :
  (collection, group) ∈ selectGrouped collectionField items
  ↔ group = of_collection collectionField collection items ∧ group ≠ [].
Proof.
  destruct (selectGrouped_inv collectionField items) as (Hn & Hall & Hin).
  rewrite Forall_forall in Hall. split.
  - intros Hg. exact (Hall _ Hg).
  - intros [-> Hne].
    destruct (of_collection collectionField collection items) as [|y rest] eqn:Hf; [done|].
    assert (y ∈ of_collection collectionField collection items) as Hy.
    { rewrite Hf. by left. }
    apply list_elem_of_filter in Hy as [Hc Hy].
    apply Hin, list_elem_of_fmap in Hy as ([c' group'] & Hc' & Hg). simpl in Hc'.
    rewrite Hc in Hc'. subst c'.
    destruct (Hall _ Hg) as [H1 _]. simpl in H1. rewrite Hf in H1. by subst group'.
Qed.

(** X20. The grouping [loadSelectedDisplayM2A] makes of the selected
    items has one group per collection that occurs among them, and no
    other: the group of a collection holds the items of this collection,
    all of them and in the order of the list, and no group is empty. *)
Theorem selectGrouped_groups (collectionField : string) (items : list Item) :
  NoDup (selectGrouped collectionField items).*1
  ∧ ∀ collection group,
      (collection, group) ∈ selectGrouped collectionField items
      ↔ group = of_collection collectionField collection items ∧ group ≠ [].
Proof.
  split.
  - apply selectGrouped_inv.
  - apply selectGrouped_member.
Qed.

Lemma elem_of_concat {A} (x : A) (ls : list (list A)) :
  x ∈ concat ls ↔ ∃ l, x ∈ l ∧ l ∈ ls.
Proof.
  induction ls as [|l ls IH]; simpl.
  - split; [by intros ?%elem_of_nil | by intros (l & _ & ?%elem_of_nil)].
  - rewrite elem_of_app, IH. split.
    + intros [Hx|(l' & Hx & Hl')].
      * exists l. split; [done | by left].
      * exists l'. split; [done | by right].
    + intros (l' & Hx & [->|Hl']%elem_of_cons); [by left|].
      right. by exists l'.
Qed.

(** X21. For a relation of type m2a with selected items on the page,
    [loadSelectedDisplay] asks each collection that occurs among them for
    the items whose primary key is among the keys the selected items of
    this collection nest under the junction field.  When it completes,
    what it keeps are exactly the items of the answers, each wrapped under
    the junction field next to its collection under the collection field,
    and nothing else of the state changes.  It throws a [TypeError], and
    changes nothing, when a selected item on the page is of a collection
    whose primary key field is not known or holds [undefined] or [null]
    under the junction field; it completes when neither is the case and
    every request is answered. *)
Theorem selected_display_m2a (api : Api) (st : State) (r : RelationM2A) :
  relation st = Some (M2A r) →
  selectedOnPage st ≠ [] →
  let cf := m2a_collectionField r in
  let jf := m2a_junctionField r in
  let shown := selectedOnPage st in
  ((∃ item : Item,
      item ∈ shown
      ∧ (m2a_relationPrimaryKeyFields r !! collection_of cf item = None
         ∨ isNil (get item jf) = true)) →
   loadSelectedDisplay api st = Raised TypeError st)
  ∧ (∀ st',
       loadSelectedDisplay api st = Done () st' →
       st' = set_fetchedSelectItems (fetchedSelectItems st') st
       ∧ ∀ entry,
           entry ∈ fetchedSelectItems st'
           ↔ ∃ collection pk keys data d,
               of_collection cf collection shown ≠ []
               ∧ m2a_relationPrimaryKeyFields r !! collection = Some pk
               ∧ mapM (fun item : Item => prop (get item jf) pk)
                   (of_collection cf collection shown) = Ok keys
               ∧ api {| r_collection := collection; r_params := in_keys pk keys |} = Ok data
               ∧ d ∈ data
               ∧ entry = m2a_entry r collection d)
  ∧ ((∀ item : Item,
        item ∈ shown →
        is_Some (m2a_relationPrimaryKeyFields r !! collection_of cf item)
        ∧ isNil (get item jf) = false) →
     (∀ request, ∃ data, api request = Ok data) →
     ∃ st', loadSelectedDisplay api st = Done () st').
Proof.
  intros Hrel Hsel cf jf shown.
  assert (is_empty (selectedOnPage st) = false) as Hne.
  { by destruct (selectedOnPage st). }
  pose proof (selectGrouped_member cf shown) as Hgroups.
  set (G := fun group : string * list Item =>
              pkField ← relationPrimaryKeyField r (VString group.1);
              keys ← mapM (fun item : Item => prop (get item jf) pkField) group.2;
              Ok (group.1, in_keys pkField keys)).
  set (H := fun request : string * Params =>
              data ← api {| r_collection := request.1; r_params := request.2 |};
              Ok (request.1, data)).
  assert (loadSelectedDisplay api st
          = match mapM G (selectGrouped cf shown) with
            | Throw e => Raised e st
            | Ok requests =>
                match mapM H requests with
                | Throw e => Raised e st
                | Ok responses =>
                    Done () (set_fetchedSelectItems
                               (concat (map (fun response : string * list Item =>
                                               map (m2a_entry r response.1) response.2)
                                          responses)) st)
                end
            end) as Hrun.
  { unfold loadSelectedDisplay. rewrite Hrel.
    unfold loadSelectedDisplayM2A. rewrite Hne.
    transitivity
      ((requests ← read (fun _ => mapM G (selectGrouped cf shown));
        responses ← read (fun _ => mapM H requests);
        modify (set_fetchedSelectItems
                  (concat (map (fun response : string * list Item =>
                                  map (m2a_entry r response.1) response.2)
                             responses)))) st); [reflexivity|].
    unfold mbind, action_bind, read, modify.
    destruct (mapM G (selectGrouped cf shown)) as [requests|e]; [|done].
    destruct (mapM H requests) as [responses|e]; done. }
  assert (∀ group e, G group = Throw e → e = TypeError) as HG.
  { intros group e. unfold G, relationPrimaryKeyField. simpl.
    destruct (m2a_relationPrimaryKeyFields r !! group.1) as [pk|]; simpl.
    - destruct (mapM _ group.2) as [keys|e'] eqn:Hk; simpl; [done|].
      intros [= <-]. clear -Hk. revert Hk.
      induction group.2 as [|a l IH]; simpl; [done|].
      destruct (prop (get a jf) pk) as [b|e''] eqn:Hp; simpl.
      + destruct (mapM _ l) as [k|e'']; simpl; [done|]. intros [= <-]. by apply IH.
      + intros [= <-]. destruct (get a jf); simpl in Hp; congruence.
    - by intros [= <-]. }
  split; [|split].
  - intros (item & Hin & Hbad).
    rewrite Hrun.
    assert (mapM G (selectGrouped cf shown) = Throw TypeError) as ->; [|reflexivity].
    set (c := collection_of cf item).
    assert (item ∈ of_collection cf c shown) as Hitem.
    { apply list_elem_of_filter. by split. }
    assert ((c, of_collection cf c shown) ∈ selectGrouped cf shown) as Hg.
    { apply Hgroups. split; [done|]. intros Hnil. rewrite Hnil in Hitem.
      by apply elem_of_nil in Hitem. }
    apply (mapM_result_Throw _ _ _ _ Hg).
    + intros y e' _. apply HG.
    + destruct (G (c, of_collection cf c shown)) as [request|e] eqn:HGc.
      * exfalso. revert HGc. unfold G, relationPrimaryKeyField. simpl.
        destruct (m2a_relationPrimaryKeyFields r !! c) as [pk|] eqn:Hpk; simpl; [|done].
        destruct Hbad as [Hbad|Hbad]; [fold c in Hbad; congruence|].
        rewrite (mapM_result_Throw _ _ item TypeError Hitem); [done| |].
        -- intros y e' _ Hp. destruct (get y jf); simpl in Hp; congruence.
        -- unfold isNil in Hbad. destruct (get item jf); simpl in Hbad |- *; congruence.
      * f_equal. by eapply HG.
  - intros st'. rewrite Hrun.
    destruct (mapM G (selectGrouped cf shown)) as [requests|e] eqn:Hreq; [|done].
    destruct (mapM H requests) as [responses|e] eqn:Hresp; [|done].
    intros [= <-]. split; [reflexivity|].
    intros entry. cbn [fetchedSelectItems set_fetchedSelectItems].
    rewrite elem_of_concat. split.
    + intros (l & Hentry & (response & -> & Hresponse)%list_elem_of_fmap).
      apply list_elem_of_fmap in Hentry as (d & -> & Hd).
      destruct (mapM_result_elem_inv _ _ _ _ Hresp Hresponse) as (request & Hrequest & HH).
      destruct (mapM_result_elem_inv _ _ _ _ Hreq Hrequest) as ([c group] & Hgroup & HGg).
      apply Hgroups in Hgroup as [-> Hnonempty].
      revert HGg HH. unfold G, H, relationPrimaryKeyField. simpl.
      destruct (m2a_relationPrimaryKeyFields r !! c) as [pk|] eqn:Hpk; simpl; [|done].
      destruct (mapM _ (of_collection cf c shown)) as [keys|] eqn:Hkeys; simpl; [|done].
      intros [= <-]. simpl.
      destruct (api _) as [data|] eqn:Hdata; simpl; [|done].
      intros [= <-]. simpl in Hd. simpl.
      by exists c, pk, keys, data, d.
    + intros (c & pk & keys & data & d & Hnonempty & Hpk & Hkeys & Hdata & Hd & ->).
      assert ((c, of_collection cf c shown) ∈ selectGrouped cf shown) as Hg.
      { by apply Hgroups. }
      destruct (mapM_result_elem _ _ _ _ Hreq Hg) as (request & Hrequest & HGg).
      destruct (mapM_result_elem _ _ _ _ Hresp Hrequest) as (response & Hresponse & HH).
      revert HGg HH. unfold G, H, relationPrimaryKeyField. simpl.
      rewrite Hpk. simpl. rewrite Hkeys. simpl. intros [= <-]. simpl.
      rewrite Hdata. simpl. intros [= <-].
      exists (map (m2a_entry r c) data). split.
      * apply list_elem_of_fmap. by exists d.
      * apply list_elem_of_fmap. by exists (c, data).
  - intros Hgood Hapi. rewrite Hrun.
    destruct (mapM G (selectGrouped cf shown)) as [requests|e] eqn:Hreq.
    + destruct (mapM H requests) as [responses|e] eqn:Hresp.
      * by eexists.
      * exfalso. destruct (mapM_result_total H requests) as [k Hk]; [|congruence].
        intros request _. unfold H. destruct (Hapi {| r_collection := request.1;
                                                     r_params := request.2 |}) as [data ->].
        by eexists.
    + exfalso. destruct (mapM_result_total G (selectGrouped cf shown)) as [k Hk]; [|congruence].
      intros [c group] [-> Hnonempty]%Hgroups.
      assert (∃ y, y ∈ of_collection cf c shown) as [y Hy].
      { destruct (of_collection cf c shown) as [|y rest]; [done|]. exists y. by left. }
      apply list_elem_of_filter in Hy as [Hc Hy].
      destruct (Hgood y Hy) as [[pk Hpk] _]. rewrite Hc in Hpk.
      destruct (mapM_result_total (fun item : Item => prop (get item jf) pk)
                  (of_collection cf c shown)) as [keys Hkeys].
      * intros item [_ Hitem]%list_elem_of_filter.
        destruct (Hgood item Hitem) as [_ Hnil]. unfold isNil in Hnil.
        destruct (get item jf); simpl; try done; by eexists.
      * unfold G, relationPrimaryKeyField. simpl. rewrite Hpk. simpl.
        rewrite Hkeys. by eexists.
Qed.

Lemma selected_display_m2a_witness :
  let api : Api := fun request =>
    Ok [ {[ "id" := Examples.num 3; "from" := VString (r_collection request) ]} ] in
  let block (collection : string) : any :=
    VObject {[ "pages_id" := Examples.num 1;
               "collection" := VString collection;
               "item" := VObject {[ "id" := Examples.num 3 ]} ]} in
  let st := set_value
              (RawChanges {| c_create := [block "headings"; block "paragraphs"];
                             c_update := []; c_delete := [] |})
              Examples.page_blocks in
  ∃ st',
    loadSelectedDisplay api st = Done () st'
    ∧ ∀ entry,
        entry ∈ fetchedSelectItems st'
        ↔ entry = {[ "collection" := VString "headings";
                     "item" := VObject {[ "id" := Examples.num 3;
                                          "from" := VString "headings" ]} ]}
          ∨ entry = {[ "collection" := VString "paragraphs";
                       "item" := VObject {[ "id" := Examples.num 3;
                                            "from" := VString "paragraphs" ]} ]}.
Proof.
  intros api block st.
  pose (r := {| m2a_allowedCollections := ["headings"; "paragraphs"];
                m2a_relationPrimaryKeyFields := {[ "headings" := "id"; "paragraphs" := "id" ]};
                m2a_junctionCollection := "pages_blocks";
                m2a_junctionPrimaryKeyField := "id";
                m2a_collectionField := "collection";
                m2a_junctionField := "item";
                m2a_reverseJunctionField := "pages_id";
                m2a_sortField := None |}).
  assert (selectedOnPage st
          = [tagged "created" 0 (block "headings"); tagged "created" 1 (block "paragraphs")])
    as Hshown by reflexivity.
  destruct (selected_display_m2a api st r eq_refl) as (_ & Hkeep & Htotal).
  { by rewrite Hshown. }
  destruct Htotal as [st' Hst'].
  { rewrite Hshown. intros item [->|[->|[]%elem_of_nil]%elem_of_cons]%elem_of_cons.
    - split; [by eexists | reflexivity].
    - split; [by eexists | reflexivity]. }
  { intros request. by eexists. }
  destruct (Hkeep st' Hst') as [_ Hentries]. rewrite Hshown in Hentries.
  exists st'. split; [exact Hst'|]. intros entry. rewrite Hentries. split.
  - intros (c & pk & keys & data & d & Hne & Hpk & Hkeys & Hdata & Hd & ->).
    injection Hdata as <-. apply list_elem_of_singleton in Hd as ->.
    destruct (decide (c = "headings")) as [->|Hh]; [by left|].
    destruct (decide (c = "paragraphs")) as [->|Hp]; [by right|].
    exfalso. apply Hne. unfold of_collection.
    rewrite filter_cons_False by (intros Hc; apply Hh; by rewrite <- Hc).
    rewrite filter_cons_False by (intros Hc; apply Hp; by rewrite <- Hc).
    reflexivity.
  - intros [->| ->].
    + exists "headings", "id", [Examples.num 3],
        [ {[ "id" := Examples.num 3; "from" := VString "headings" ]} ],
        {[ "id" := Examples.num 3; "from" := VString "headings" ]}.
      split; [discriminate|]. split; [reflexivity|]. split; [reflexivity|].
      split; [reflexivity|]. split; [by left | reflexivity].
    + exists "paragraphs", "id", [Examples.num 3],
        [ {[ "id" := Examples.num 3; "from" := VString "paragraphs" ]} ],
        {[ "id" := Examples.num 3; "from" := VString "paragraphs" ]}.
      split; [discriminate|]. split; [reflexivity|]. split; [reflexivity|].
      split; [reflexivity|]. split; [by left | reflexivity].
Defined.

Lemma Forall_array_set (P : any → Prop) (key x : any) (l : list any) :
  P x → P VUndefined → Forall P l → Forall P (array_set key x l).
Proof.
  intros Hx Hu Hl. unfold array_set. destruct (array_index key) as [i|]; [|done].
  destruct (Nat.ltb i (length l)).
  - by apply Forall_insert.
  - apply Forall_app. split; [done|]. apply Forall_app. split.
    + by apply Forall_replicate.
    + by apply Forall_cons.
Qed.

Lemma Forall_splice1 {A} (P : A → Prop) (start : any) (l : list A) :
  Forall P l → Forall P (splice1 start l).
Proof.
  intros Hl. unfold splice1. apply Forall_app. split.
  - by apply Forall_take.
  - by apply Forall_drop.
Qed.

Lemma Forall_push {A} (P : A → Prop) (x : A) (l : list A) :
  P x → Forall P l → Forall P (push x l).
Proof. intros Hx Hl. apply Forall_app. split; [done | by apply Forall_cons]. Qed.

Lemma create_body_keeps (info : option Relation) (item : Item) (st : State) :
  relation st = info ∧ no_null_edit st →
  let st' :=
    final_state
      ((create_entry item ≫= fun entry => change (set_create (push (VObject entry)))) st) in
  relation st' = info ∧ no_null_edit st'.
Proof.
  intros H. unfold mbind, action_bind.
  by destruct (create_entry_inv item st) as [[source ->]|[e ->]].
Qed.

Lemma update_one_keeps (info : option Relation) (item : Item) (st : State) :
  relation st = info ∧ no_null_edit st →
  let st' := final_state (update_one item st) in
  relation st' = info ∧ no_null_edit st'.
Proof.
  intros [Hrel H]. unfold update_one.
  repeat match goal with
         | |- context [if ?b then _ else _] => destruct b
         end; rewrite ?change_Done; (split; [exact Hrel|]);
    unfold no_null_edit; cbn [final_state]; rewrite ?_value_set_value;
    cbn [set_update set_create c_update]; try exact H;
    first [apply Forall_push | apply Forall_array_set]; done.
Qed.

Lemma remove_one_keeps (info : option Relation) (pkField : string) (item : Item)
    (st : State) :
  relation st = info ∧ no_null_edit st →
  let st' := final_state (remove_one pkField item st) in
  relation st' = info ∧ no_null_edit st'.
Proof.
  intros [Hrel H]. unfold remove_one.
  repeat match goal with
         | |- context [if ?b then _ else _] => destruct b
         end; rewrite ?change_Done; (split; [exact Hrel|]);
    unfold no_null_edit; cbn [final_state]; rewrite ?_value_set_value;
    cbn [set_update set_create set_delete c_update]; try exact H.
  by apply Forall_splice1.
Qed.

Lemma then_updateValue_keeps (info : option Relation) (m : action ()) (st : State) :
  relation (final_state (m st)) = info ∧ no_null_edit (final_state (m st)) →
  let st' := final_state ((m ≫= fun _ => updateValue) st) in
  relation st' = info ∧ no_null_edit st'.
Proof.
  unfold mbind, action_bind. destruct (m st) as [[] s|e s]; simpl; [|done].
  destruct (updateValue_Done s) as (s' & -> & Hv & Hrel & _). simpl.
  unfold no_null_edit. by rewrite Hv, Hrel.
Qed.

Lemma create_keeps (info : option Relation) (items : list Item) (st : State) :
  relation st = info ∧ no_null_edit st →
  relation (final_state (create items st)) = info
  ∧ no_null_edit (final_state (create items st)).
Proof.
  intros H. unfold create. apply then_updateValue_keeps.
  apply (for_of_invariant (fun s => relation s = info ∧ no_null_edit s)); [|done].
  intros item s Hs. by apply create_body_keeps.
Qed.

Lemma update_keeps (info : option Relation) (items : list Item) (st : State) :
  relation st = info ∧ no_null_edit st →
  relation (final_state (update items st)) = info
  ∧ no_null_edit (final_state (update items st)).
Proof.
  intros H. unfold update. destruct (relation st) in |- *; [|exact H].
  apply then_updateValue_keeps.
  apply (for_of_invariant (fun s => relation s = info ∧ no_null_edit s)); [|done].
  intros item s Hs. by apply update_one_keeps.
Qed.

Lemma run_keeps (info : option Relation) (call : Call) (st : State) :
  relation st = info ∧ no_null_edit st →
  relation (final_state (run call st)) = info
  ∧ no_null_edit (final_state (run call st)).
Proof.
  intros H. destruct call as [items|items|items|ids collection|]; simpl.
  - by apply create_keeps.
  - by apply update_keeps.
  - unfold remove. destruct (relation st) as [r|] in |- *; [|exact H].
    apply then_updateValue_keeps.
    apply (for_of_invariant (fun s => relation s = info ∧ no_null_edit s)); [|done].
    intros item s Hs. by apply remove_one_keeps.
  - unfold select. destruct (relation st) as [r|] in |- *; [|exact H].
    unfold mbind, action_bind, read.
    destruct (mapM _ ids) as [entries|e]; [|done].
    destruct (is_o2m (Some r)); [by apply update_keeps | by apply create_keeps].
  - unfold clear. destruct (relation st) in |- *; [|exact H]. simpl.
    split; [apply H|]. unfold no_null_edit.
    destruct (strict_eq (itemId st) (VString "+")); apply Forall_nil_2.
Qed.

Lemma run_all_keeps (info : option Relation) (calls : list Call) (st : State) :
  relation st = info ∧ no_null_edit st →
  relation (run_all calls st) = info ∧ no_null_edit (run_all calls st).
Proof.
  revert st. induction calls as [|call calls IH]; intros st H; [done|].
  apply IH. by apply run_keeps.
Qed.

(** X22. No action writes [null] into the update list: when
    it has no [null] entry (its entries are declared to be objects), it
    has none after any sequence of calls of [create], [update], [remove],
    [select] and [clear], whether they complete or throw, and the relation
    is the same.  So for a relation of type o2m [displayItems] can be
    computed after each of them: the holes [update] leaves when it writes
    past the end of a list do not make it throw. *)
Theorem displayItems_after_actions (st : State) (r : RelationO2M) (calls : list Call) :
  relation st = Some (O2M r) →
  no_null_edit st →
  let st' := run_all calls st in
  relation st' = Some (O2M r)
  ∧ no_null_edit st'
  ∧ ∃ shown, displayItems st' = Ok shown.
Proof.
  intros Hrel Hnull st'.
  destruct (run_all_keeps (Some (O2M r)) calls st (conj Hrel Hnull)) as [Hrel' Hnull'].
  split; [exact Hrel'|]. split; [exact Hnull'|].
  exact (displayItems_o2m_total _ r Hrel' Hnull').
Qed.

Lemma displayItems_after_actions_witness :
  let calls :=
    [ Update [tagged "updated" 3 (VObject {[ "id" := Examples.num 7 ]})];
      Select [Examples.num 9] None;
      Remove [Examples.book8] ] in
  c_update (_value (run_all calls Examples.author))
  = [ VUndefined; VUndefined; VUndefined;
      VObject {[ "id" := Examples.num 7 ]};
      VObject {[ "author" := Examples.num 1; "id" := Examples.num 9 ]} ]
  ∧ ∃ shown, displayItems (run_all calls Examples.author) = Ok shown.
Proof.
  intros calls. split; [reflexivity|].
  destruct (displayItems_after_actions Examples.author _ calls eq_refl) as (_ & _ & H).
  - apply Forall_nil_2.
  - exact H.
Defined.

(** X23. On values of its declared type, numbers and [null],
    [getSortMax] returns [null] exactly when every value is [null], and
    otherwise the largest of the numbers: a number is returned exactly
    when it is among the values and none of them is above it.  The order
    of the values does not matter. *)
Theorem getSortMax_maximum (values : list any) :
  Forall number_or_null values →
  (getSortMax values = VNull ↔ Forall (fun v => v = VNull) values)
  ∧ (∀ z, getSortMax values = VNumber (Int z)
          ↔ VNumber (Int z) ∈ values ∧ ∀ z', VNumber (Int z') ∈ values → z' <= z)
  ∧ (∀ values', values ≡ₚ values' → getSortMax values' = getSortMax values).
Proof.
  assert (∀ l z, Forall number_or_null l →
            VNumber (Int z) ∈ l → (∀ z', VNumber (Int z') ∈ l → z' <= z) →
            getSortMax l = VNumber (Int z)) as Hback.
  { intros l z Hl Hin Hub.
    destruct (getSortMax_typed l Hl) as (Hnull & Hmax & [Hr|[m Hr]]).
    - apply Hnull in Hr. rewrite Forall_forall in Hr. by specialize (Hr _ Hin).
    - destruct (Hmax m Hr) as [Hm Hle]. rewrite Hr. do 2 f_equal.
      specialize (Hub m Hm). specialize (Hle z Hin). lia. }
  intros Hvalues.
  destruct (getSortMax_typed values Hvalues) as (Hnull & Hmax & Hn).
  split; [exact Hnull|]. split.
  - intros z. split; [apply Hmax|]. intros [Hin Hub]. by apply Hback.
  - intros values' Hperm.
    assert (Forall number_or_null values') as Hvalues'.
    { by rewrite <- Hperm. }
    destruct Hn as [Hr|[m Hr]]; rewrite Hr.
    + apply (getSortMax_typed values' Hvalues'). rewrite <- Hperm. by apply Hnull.
    + destruct (Hmax m Hr) as [Hm Hle]. apply Hback; [done | by rewrite <- Hperm |].
      intros z' Hz'. apply Hle. by rewrite Hperm.
Qed.

Lemma getSortMax_maximum_witness :
  getSortMax [VNull; Examples.num 3; Examples.num 5; VNull; Examples.num 4] = Examples.num 5
  ∧ getSortMax [Examples.num 4; VNull; Examples.num 5; Examples.num 3; VNull]
    = getSortMax [VNull; Examples.num 3; Examples.num 5; VNull; Examples.num 4].
Proof.
  assert (Forall number_or_null
            [VNull; Examples.num 3; Examples.num 5; VNull; Examples.num 4]) as H.
  { apply Forall_cons_2; [by left|]. apply Forall_cons_2; [right; by eexists|].
    apply Forall_cons_2; [right; by eexists|]. apply Forall_cons_2; [by left|].
    apply Forall_cons_2; [right; by eexists|]. apply Forall_nil_2. }
  destruct (getSortMax_maximum _ H) as (_ & Hmax & Hperm). split.
  - apply Hmax. split.
    + apply elem_of_cons. right. apply elem_of_cons. right. apply elem_of_cons. by left.
    + intros z' Hz'. repeat (apply elem_of_cons in Hz' as [Hz'|Hz']);
        try discriminate Hz'; try (injection Hz' as ->; lia).
      by apply elem_of_nil in Hz'.
  - apply Hperm.
    change [Examples.num 4; VNull; Examples.num 5; Examples.num 3; VNull]
      with (reverse [VNull; Examples.num 3; Examples.num 5; VNull; Examples.num 4]).
    symmetry. apply reverse_Permutation.
Defined.

(** ** The display as a whole *)








